(** * market-api: the in-memory catalogue tree and its request handlers

    A shallow embedding of [analyzer/core/tree.py] (class [MarketTree]) and of
    the handlers of [analyzer/api/app.py], followed by the properties of the
    catalogue that the specification states about them.

    Conventions of the embedding.
    - A Python [dict] is an association list in insertion order: iteration
      order is observable ([get_sales] and the adoption loop of [add] walk a
      dict), a rewritten key keeps its place and a new key goes last.
    - A method of [MarketTree] takes the tree and returns the tree it leaves
      behind together with its outcome; an exception leaves the mutations made
      before it in place, as in Python.
    - A [datetime] is an instant counted in microseconds; a [UUID] is its
      128-bit integer value.
    - Recursive walks take a [fuel] that stands for the interpreter's
      recursion limit: running out of it is [RecursionError]. *)

From Stdlib Require Import ZArith NArith List Bool String Lia Permutation Sorted.
Import ListNotations.
Local Open Scope Z_scope.

(** ** Values *)

Definition UUID := N.
Definition datetime := Z.

(** [ShopUnitType] of [analyzer/api/schema.py]. *)
Inductive ShopUnitType := OFFER | CATEGORY.

Definition type_value (ty : ShopUnitType) : string :=
  match ty with OFFER => "OFFER" | CATEGORY => "CATEGORY" end.

Definition is_offer (ty : ShopUnitType) : bool :=
  String.eqb (type_value ty) "OFFER".

Definition is_category (ty : ShopUnitType) : bool :=
  String.eqb (type_value ty) "CATEGORY".

(** Exceptions the code can raise. [HTTPException] carries its status. *)
Inductive exn :=
| KeyError
| TypeError
| ValueError
| AttributeError
| ZeroDivisionError
| RecursionError
| HTTPException (status_code : Z).

Definition ValidationFailed : exn := HTTPException 400.
Definition NotFound : exn := HTTPException 404.

Inductive result (A : Type) :=
| Ok (a : A)
| Raise (e : exn).
Arguments Ok {A} a.
Arguments Raise {A} e.

(** Truth value of an [Optional[int]]: [None] and [0] are false. *)
Definition truthy (price : option Z) : bool :=
  match price with
  | Some p => negb (p =? 0)
  | None => false
  end.

(** ** Dictionaries *)

Module Dict.
Section Ops.
Context {V : Type}.

Definition dict := list (UUID * V).

Fixpoint get (k : UUID) (d : dict) : option V :=
  match d with
  | [] => None
  | (k', v) :: d' => if N.eqb k k' then Some v else get k d'
  end.

Definition mem (k : UUID) (d : dict) : bool :=
  match get k d with Some _ => true | None => false end.

(** [d[k] = v] *)
Fixpoint set (k : UUID) (v : V) (d : dict) : dict :=
  match d with
  | [] => [(k, v)]
  | (k', v') :: d' =>
      if N.eqb k k' then (k, v) :: d' else (k', v') :: set k v d'
  end.

(** [del d[k]], for a key that is there *)
Fixpoint del (k : UUID) (d : dict) : dict :=
  match d with
  | [] => []
  | (k', v') :: d' => if N.eqb k k' then d' else (k', v') :: del k d'
  end.

Definition keys (d : dict) : list UUID := map fst d.
End Ops.
Arguments dict V : clear implicits.
End Dict.

Abbreviation dict := Dict.dict.

(** [x in l] for a list of identifiers *)
Definition mem_id (x : UUID) (l : list UUID) : bool := existsb (N.eqb x) l.

(** [l.remove(x)]: drops the first occurrence *)
Fixpoint remove_first (x : UUID) (l : list UUID) : list UUID :=
  match l with
  | [] => []
  | y :: l' => if N.eqb x y then l' else y :: remove_first x l'
  end.

(** ** The tree *)

(** The dict handed to [add]: [item.dict() | {"date": date}]. *)
Record NodeInfo := {
  id : UUID;
  name : string;
  parent_id : option UUID;
  type : ShopUnitType;
  price : option Z;
  date : datetime
}.

(** A stored node: [node | {"children": ...}]. *)
Record Node := {
  info : NodeInfo;
  children : option (list UUID)
}.

Record MarketTree := {
  nodes : dict Node;
  price_by_id : dict (list (datetime * Z))
}.

(** [MarketTree()] *)
Definition init : MarketTree := {| nodes := []; price_by_id := [] |}.

Definition with_nodes (t : MarketTree) (ns : dict Node) : MarketTree :=
  {| nodes := ns; price_by_id := price_by_id t |}.

Definition with_children (n : Node) (c : option (list UUID)) : Node :=
  {| info := info n; children := c |}.

Definition add_price (i : UUID) (d : datetime) (p : Z) (t : MarketTree)
  : MarketTree :=
  match Dict.get i (price_by_id t) with
  | None =>
      {| nodes := nodes t; price_by_id := Dict.set i [(d, p)] (price_by_id t) |}
  | Some h =>
      {| nodes := nodes t;
         price_by_id := Dict.set i (h ++ [(d, p)]) (price_by_id t) |}
  end.

Definition delete_price_by_id (i : UUID) (t : MarketTree)
  : MarketTree * result unit :=
  if Dict.mem i (price_by_id t)
  then ({| nodes := nodes t; price_by_id := Dict.del i (price_by_id t) |}, Ok tt)
  else (t, Raise KeyError).

Definition parent_is (i : UUID) (n : Node) : bool :=
  match parent_id (info n) with
  | Some p => N.eqb p i
  | None => false
  end.

(** The loop of [add] over [self.nodes.items()], threading the children of
    the node being written. The membership test is only reached for an entry
    whose parent is [i]; on a [None] children slot it raises. *)
Fixpoint adopt (i : UUID) (items : dict Node) (ch : option (list UUID))
  : result (option (list UUID)) :=
  match items with
  | [] => Ok ch
  | (node_id, node_info) :: rest =>
      if parent_is i node_info then
        match ch with
        | None => Raise TypeError
        | Some l =>
            if mem_id node_id l then adopt i rest ch
            else adopt i rest (Some (l ++ [node_id]))
        end
      else adopt i rest ch
  end.

(** The last statement of [add]: registration with the parent. *)
Definition link_parent (i : UUID) (p : option UUID) (t : MarketTree)
  : MarketTree * result unit :=
  match p with
  | None => (t, Ok tt)
  | Some pid =>
      match Dict.get pid (nodes t) with
      | None => (t, Ok tt)
      | Some pn =>
          match children pn with
          | None => (t, Raise TypeError)
          | Some l =>
              if mem_id i l then (t, Ok tt)
              else (with_nodes t
                      (Dict.set pid (with_children pn (Some (l ++ [i])))
                         (nodes t)),
                    Ok tt)
          end
      end
  end.

(** [self.nodes.get(id, {}).get("children", child)] *)
Definition kept_children (node : NodeInfo) (t : MarketTree)
  : option (list UUID) :=
  let child := if is_category (type node) then Some [] else None in
  match Dict.get (id node) (nodes t) with
  | Some old => children old
  | None => child
  end.

Definition add (node : NodeInfo) (t : MarketTree) : MarketTree * result unit :=
  let i := id node in
  let kept := kept_children node t in
  let t1 := with_nodes t (Dict.set i {| info := node; children := kept |} (nodes t)) in
  if truthy (price node) then
    match price node with
    | Some p => link_parent i (parent_id node) (add_price i (date node) p t1)
    | None => link_parent i (parent_id node) t1
    end
  else if is_category (type node) then
    match adopt i (nodes t1) kept with
    | Raise e => (t1, Raise e)
    | Ok ch =>
        link_parent i (parent_id node)
          (with_nodes t1
             (Dict.set i {| info := node; children := ch |} (nodes t1)))
    end
  else link_parent i (parent_id node) t1.

(** [delete_node_by_id]. The node handed back is the stored object, read
    after the parent's list was edited (they are one object when a node is
    its own parent). *)
Definition delete_node_by_id (i : UUID) (t : MarketTree)
  : MarketTree * result (option Node) :=
  match Dict.get i (nodes t) with
  | None => (t, Ok None)
  | Some node =>
      match parent_id (info node) with
      | None => (with_nodes t (Dict.del i (nodes t)), Ok (Some node))
      | Some pid =>
          match Dict.get pid (nodes t) with
          | None => (with_nodes t (Dict.del i (nodes t)), Ok (Some node))
          | Some pn =>
              match children pn with
              | None => (t, Raise AttributeError)
              | Some l =>
                  if mem_id i l then
                    let ns :=
                      Dict.set pid (with_children pn (Some (remove_first i l)))
                        (nodes t) in
                    (with_nodes t (Dict.del i ns), Ok (Dict.get i ns))
                  else (t, Raise ValueError)
              end
          end
      end
  end.

(** ** Aggregation over a category *)

(** The loop of [calculate_price_for_category] over the children, with the
    recursive call for a nested category passed in. *)
Fixpoint price_loop (rec : UUID -> result (Z * Z)) (ns : dict Node)
    (cs : list UUID) (amount count_items : Z) : result (Z * Z) :=
  match cs with
  | [] => Ok (amount, count_items)
  | node_id :: cs' =>
      match Dict.get node_id ns with
      | None => Raise KeyError
      | Some c =>
          if is_offer (type (info c)) then
            match price (info c) with
            | None => Raise TypeError
            | Some p => price_loop rec ns cs' (amount + p) (count_items + 1)
            end
          else if is_category (type (info c)) then
            match rec node_id with
            | Raise e => Raise e
            | Ok (a, c') => price_loop rec ns cs' (amount + a) (count_items + c')
            end
          else price_loop rec ns cs' amount count_items
      end
  end.

Fixpoint calculate_price_for_category (fuel : nat) (t : MarketTree) (i : UUID)
  : result (Z * Z) :=
  match fuel with
  | O => Raise RecursionError
  | S fuel' =>
      match Dict.get i (nodes t) with
      | None => Raise KeyError
      | Some n =>
          match children n with
          | None => Raise TypeError
          | Some cs =>
              price_loop (calculate_price_for_category fuel' t) (nodes t) cs 0 0
          end
      end
  end.

Fixpoint date_loop (rec : UUID -> result datetime) (ns : dict Node)
    (cs : list UUID) (d : datetime) : result datetime :=
  match cs with
  | [] => Ok d
  | node_id :: cs' =>
      match Dict.get node_id ns with
      | None => Raise KeyError
      | Some c =>
          if is_offer (type (info c)) then
            if date (info c) >? d then date_loop rec ns cs' (date (info c))
            else date_loop rec ns cs' d
          else if is_category (type (info c)) then
            match rec node_id with
            | Raise e => Raise e
            | Ok new_date =>
                if new_date >? d then date_loop rec ns cs' new_date
                else date_loop rec ns cs' d
            end
          else date_loop rec ns cs' d
      end
  end.

Fixpoint calculate_date_for_category (fuel : nat) (t : MarketTree) (i : UUID)
  : result datetime :=
  match fuel with
  | O => Raise RecursionError
  | S fuel' =>
      match Dict.get i (nodes t) with
      | None => Raise KeyError
      | Some n =>
          match children n with
          | None => Raise TypeError
          | Some cs =>
              date_loop (calculate_date_for_category fuel' t) (nodes t) cs
                (date (info n))
          end
      end
  end.

(** ** Views *)

(** [convert_date] prints with ["%Y-%m-%dT%H:%M:%SZ"]: the wall-clock fields
    of the datetime, cut to whole seconds, followed by a literal Z. The
    model keeps a datetime as an instant only and reads it in UTC, so what
    it keeps of the text is the instant cut to whole seconds; for a datetime
    that carries another offset the source prints that offset's wall clock
    instead. No property below depends on the text. *)
Inductive date_str := DateStr (seconds : Z).

Definition convert_date (d : datetime) : date_str := DateStr (d / 1000000).

#[local] Set Warnings "-register-all".
Inductive View :=
| mkView (v_date : date_str) (v_id : UUID) (v_name : string)
    (v_parentId : option UUID) (v_type : ShopUnitType)
    (v_price : option Z) (v_children : option (list View)).

Definition v_price (v : View) : option Z :=
  match v with mkView _ _ _ _ _ p _ => p end.

Definition v_children (v : View) : option (list View) :=
  match v with mkView _ _ _ _ _ _ c => c end.

(** [sorted(children)] *)
Fixpoint insert_id (x : UUID) (l : list UUID) : list UUID :=
  match l with
  | [] => [x]
  | y :: l' => if N.leb x y then x :: l else y :: insert_id x l'
  end.

Definition sorted (l : list UUID) : list UUID := fold_right insert_id [] l.

(** A list comprehension whose body may raise. *)
Fixpoint map_result {A B : Type} (f : A -> result B) (l : list A)
  : result (list B) :=
  match l with
  | [] => Ok []
  | x :: l' =>
      match f x with
      | Raise e => Raise e
      | Ok y =>
          match map_result f l' with
          | Raise e => Raise e
          | Ok ys => Ok (y :: ys)
          end
      end
  end.

Fixpoint get_nodes (fuel : nat) (t : MarketTree) (node : Node) : result View :=
  match fuel with
  | O => Raise RecursionError
  | S fuel' =>
      let n := info node in
      match children node with
      | Some cs =>
          match calculate_price_for_category fuel' t (id n) with
          | Raise e => Raise e
          | Ok (amount, count) =>
              match
                map_result
                  (fun c =>
                     match Dict.get c (nodes t) with
                     | None => Raise KeyError
                     | Some cn => get_nodes fuel' t cn
                     end)
                  (sorted cs)
              with
              | Raise e => Raise e
              | Ok views =>
                  if count =? 0 then Raise ZeroDivisionError
                  else
                    match calculate_date_for_category fuel' t (id n) with
                    | Raise e => Raise e
                    | Ok d =>
                        Ok (mkView (convert_date d) (id n) (name n)
                              (parent_id n) (type n) (Some (amount / count))
                              (Some views))
                    end
              end
          end
      | None =>
          Ok (mkView (convert_date (date n)) (id n) (name n) (parent_id n)
                (type n) (price n) None)
      end
  end.

(** ** The ledger and its two readers *)

Definition observation := (datetime * Z)%type.

(** [list.sort(key=..., reverse=False)] is stable; so is this insertion. *)
Fixpoint insert_asc (x : observation) (l : list observation)
  : list observation :=
  match l with
  | [] => [x]
  | y :: l' => if fst x <=? fst y then x :: l else y :: insert_asc x l'
  end.

Definition sort_asc (l : list observation) : list observation :=
  fold_right insert_asc [] l.

(** [reverse=True] orders by decreasing key and still keeps equal keys in
    their original order. *)
Fixpoint insert_desc (x : observation) (l : list observation)
  : list observation :=
  match l with
  | [] => [x]
  | y :: l' => if fst y <=? fst x then x :: l else y :: insert_desc x l'
  end.

Definition sort_desc (l : list observation) : list observation :=
  fold_right insert_desc [] l.

Definition microseconds_per_day : Z := 86400000000.

(** [timedelta.days] of [a - b]: the floor of the difference in days. *)
Definition days (a b : datetime) : Z := (a - b) / microseconds_per_day.

Record SaleUnit := {
  sale_id : UUID;
  sale_name : string;
  sale_date : date_str;
  sale_parentId : option UUID;
  sale_price : Z;
  sale_type : string
}.

(** The [result_node] of [get_sales]. *)
Definition sale_unit (n : NodeInfo) (node_date : datetime) (node_price : Z)
  : SaleUnit :=
  {| sale_id := id n; sale_name := name n; sale_date := convert_date node_date;
     sale_parentId := parent_id n; sale_price := node_price;
     sale_type := type_value (type n) |}.

(** The inner loop of [get_sales] up to its [break]. *)
Fixpoint first_recent (d : datetime) (h : list observation)
  : option observation :=
  match h with
  | [] => None
  | (node_date, node_price) :: h' =>
      if days d node_date <=? 1 then Some (node_date, node_price)
      else first_recent d h'
  end.

(** The outer loop of [get_sales] over the ledger, entry by entry; the
    first component is the ledger as the loop leaves it (sorted in place as
    far as the loop got). *)
Fixpoint sales_loop (d : datetime) (ns : dict Node)
    (ledger : dict (list observation)) (items : list SaleUnit)
  : dict (list observation) * result (list SaleUnit) :=
  match ledger with
  | [] => ([], Ok items)
  | (i, h) :: rest =>
      let h' := sort_desc h in
      match first_recent d h' with
      | None =>
          let (rest', r) := sales_loop d ns rest items in ((i, h') :: rest', r)
      | Some (node_date, node_price) =>
          match Dict.get i ns with
          | None => ((i, h') :: rest, Raise KeyError)
          | Some node =>
              let result_node := sale_unit (info node) node_date node_price in
              let (rest', r) := sales_loop d ns rest (items ++ [result_node]) in
              ((i, h') :: rest', r)
          end
      end
  end.

Definition get_sales (d : datetime) (t : MarketTree)
  : MarketTree * result (list SaleUnit) :=
  let (ledger, r) := sales_loop d (nodes t) (price_by_id t) [] in
  ({| nodes := nodes t; price_by_id := ledger |}, r).

Record StatisticUnit := {
  st_id : UUID;
  st_name : string;
  st_date : datetime;
  st_parentId : option UUID;
  st_price : option Z;
  st_type : ShopUnitType
}.

(** The [if]/[elif] chain that fills [result_date]; a [datetime] is always
    true as a condition, so [start_date and ...] only asks for presence. *)
Definition result_date (start_date end_date : option datetime)
    (node_date : datetime) : option datetime :=
  match start_date, end_date with
  | Some s, Some e =>
      if (s <=? node_date) && (node_date <=? e) then Some node_date else None
  | Some s, None => if s <=? node_date then Some node_date else None
  | None, Some e => if node_date <=? e then Some node_date else None
  | None, None => Some node_date
  end.

Definition statistic_unit (i : UUID) (n : NodeInfo) (d : datetime)
    (p : option Z) : StatisticUnit :=
  {| st_id := i; st_name := name n; st_date := d; st_parentId := parent_id n;
     st_price := p; st_type := type n |}.

Fixpoint offer_items (i : UUID) (n : NodeInfo)
    (start_date end_date : option datetime) (h : list observation)
  : list StatisticUnit :=
  match h with
  | [] => []
  | (node_date, node_price) :: h' =>
      match result_date start_date end_date node_date with
      | Some d =>
          statistic_unit i n d (Some node_price)
            :: offer_items i n start_date end_date h'
      | None => offer_items i n start_date end_date h'
      end
  end.

Definition get_statistic_by_id (fuel : nat) (i : UUID)
    (start_date end_date : option datetime) (t : MarketTree)
  : MarketTree * result (list StatisticUnit) :=
  match Dict.get i (nodes t) with
  | None => (t, Raise KeyError)
  | Some node =>
      let n := info node in
      if is_offer (type n) then
        match Dict.get i (price_by_id t) with
        | None => (t, Raise KeyError)
        | Some h =>
            let h' := sort_asc h in
            ({| nodes := nodes t; price_by_id := Dict.set i h' (price_by_id t) |},
             Ok (offer_items i n start_date end_date h'))
        end
      else if is_category (type n) then
        match calculate_date_for_category fuel t i with
        | Raise e => (t, Raise e)
        | Ok node_date =>
            match calculate_price_for_category fuel t i with
            | Raise e => (t, Raise e)
            | Ok (amount, count_items) =>
                let node_price :=
                  if count_items =? 0 then None
                  else Some (amount / count_items) in
                match result_date start_date end_date node_date with
                | Some d => (t, Ok [statistic_unit i n d node_price])
                | None => (t, Ok [])
                end
            end
        end
      else (t, Ok [])
  end.

(** ** The request handlers of [analyzer/api/app.py]

    The handlers work on the one module-level [tree]. The durable store is
    written to and, in [delete_item_by_id], asked whether it held the item:
    its answer is the handler's [deleted] argument; its writes leave no trace
    in the tree and are not modelled. *)

Module App.

(** [ShopUnitImport] of the request schema. *)
Record ShopUnitImport := {
  item_id : UUID;
  item_name : string;
  item_parent_id : option UUID;
  item_type : ShopUnitType;
  item_price : option Z
}.

(** [item.dict() | {"date": date}] *)
Definition item_dict (item : ShopUnitImport) (d : datetime) : NodeInfo :=
  {| id := item_id item; name := item_name item;
     parent_id := item_parent_id item; type := item_type item;
     price := item_price item; date := d |}.

Record Response := { code : Z; message : string }.

(** [isinstance(price, NoneType)] *)
Definition is_none (p : option Z) : bool :=
  match p with None => true | Some _ => false end.

Fixpoint load_items_loop (items : list ShopUnitImport) (d : datetime)
    (t : MarketTree) : MarketTree * result unit :=
  match items with
  | [] => (t, Ok tt)
  | item :: rest =>
      if is_offer (item_type item) && is_none (item_price item)
      then (t, Raise ValidationFailed)
      else
        match add (item_dict item d) t with
        | (t', Raise e) => (t', Raise e)
        | (t', Ok _) => load_items_loop rest d t'
        end
  end.

Definition load_items (items : list ShopUnitImport) (update_date : datetime)
    (t : MarketTree) : MarketTree * result Response :=
  match load_items_loop items update_date t with
  | (t', Raise e) => (t', Raise e)
  | (t', Ok _) =>
      (t', Ok {| code := 200;
                 message := "The insertion or update was successful" |})
  end.

(** Keys of Python dicts as the handlers use them: a node dict is keyed by
    the names of its fields, the tree by identifiers. *)
Inductive pykey := KStr (s : string) | KUUID (u : UUID).

Definition pykey_eqb (a b : pykey) : bool :=
  match a, b with
  | KStr x, KStr y => String.eqb x y
  | KUUID x, KUUID y => N.eqb x y
  | _, _ => false
  end.

Definition node_keys (n : Node) : list pykey :=
  [KStr "id"; KStr "name"; KStr "parent_id"; KStr "type"; KStr "price";
   KStr "date"; KStr "children"].

(** [k in node] for a node dict *)
Definition in_node (k : pykey) (n : Node) : bool :=
  existsb (pykey_eqb k) (node_keys n).

Definition delete_item_by_id (deleted : bool) (i : UUID) (t : MarketTree)
  : MarketTree * result (option Response) :=
  if negb deleted then (t, Raise NotFound)
  else
    match Dict.get i (nodes t) with
    | None => (t, Raise KeyError)
    | Some node =>
        let after_prices :=
          if in_node (KUUID i) node && is_offer (type (info node))
          then delete_price_by_id i t
          else (t, Ok tt) in
        match after_prices with
        | (t1, Raise e) => (t1, Raise e)
        | (t1, Ok _) =>
            match delete_node_by_id i t1 with
            | (t2, Raise e) => (t2, Raise e)
            | (t2, Ok (Some _)) => (t2, Ok (Some {| code := 200; message := "OK" |}))
            | (t2, Ok None) => (t2, Ok None)
            end
        end
    end.

Definition get_nodes_by_id (fuel : nat) (i : UUID) (t : MarketTree)
  : result View :=
  match Dict.get i (nodes t) with
  | None => Raise NotFound
  | Some node => get_nodes fuel t node
  end.

Definition get_sales (d : datetime) (t : MarketTree)
  : MarketTree * result (list SaleUnit) :=
  get_sales d t.

Definition get_statistic_by_id (fuel : nat) (i : UUID)
    (dateStart dateEnd : option datetime) (t : MarketTree)
  : MarketTree * result (list StatisticUnit) :=
  let bad_range :=
    match dateEnd, dateStart with
    | Some e, Some s => e <? s
    | _, _ => false
    end in
  if bad_range then (t, Raise ValidationFailed)
  else if negb (Dict.mem i (nodes t)) then (t, Raise NotFound)
  else get_statistic_by_id fuel i dateStart dateEnd t.

End App.

(** ** Notions of the specification used to state the properties *)

(** The closed interval [[start, end]] of the statistics query, an absent
    bound being no bound. *)
Definition in_interval (start_date end_date : option datetime)
    (d : datetime) : Prop :=
  (forall s, start_date = Some s -> s <= d)
  /\ (forall e, end_date = Some e -> d <= e).

Definition in_intervalb (start_date end_date : option datetime)
    (d : datetime) : bool :=
  match start_date with Some s => s <=? d | None => true end
  && match end_date with Some e => d <=? e | None => true end.

Definition observed_in (start_date end_date : option datetime)
    (o : observation) : bool :=
  in_intervalb start_date end_date (fst o).

(** What a history entry shows of the observation it stands for. *)
Definition shown (u : StatisticUnit) : datetime * option Z :=
  (st_date u, st_price u).

Definition as_shown (o : observation) : datetime * option Z :=
  (fst o, Some (snd o)).

(** ** Sample catalogues, built through the handlers from the empty tree *)

Definition offer_item (i : UUID) (p : option UUID) (pr : option Z)
  : App.ShopUnitImport :=
  {| App.item_id := i; App.item_name := "offer"; App.item_parent_id := p;
     App.item_type := OFFER; App.item_price := pr |}.

Definition category_item (i : UUID) (p : option UUID) (pr : option Z)
  : App.ShopUnitImport :=
  {| App.item_id := i; App.item_name := "category"; App.item_parent_id := p;
     App.item_type := CATEGORY; App.item_price := pr |}.

Definition imported (items : list App.ShopUnitImport) (d : datetime)
    (t : MarketTree) : MarketTree :=
  fst (App.load_items items d t).

(** Offer [1] priced 300 at instant 2000 and then 100 at instant 1000. *)
Definition two_prices : MarketTree :=
  imported [offer_item 1%N None (Some 100)] 1000
    (imported [offer_item 1%N None (Some 300)] 2000 init).

(** What one ledger entry contributes to the sales list. *)
Definition sale_of (d : datetime) (ns : dict Node)
    (entry : UUID * list observation) : list SaleUnit :=
  match first_recent d (sort_desc (snd entry)) with
  | None => []
  | Some (node_date, node_price) =>
      match Dict.get (fst entry) ns with
      | None => []
      | Some node => [sale_unit (info node) node_date node_price]
      end
  end.

(** Offers [1] and [2]: offer [1] observed at instants 0 and 3 days, offer
    [2] only at instant 0. *)
Definition day : Z := microseconds_per_day.

Definition sales_sample : MarketTree :=
  imported [offer_item 1%N None (Some 120)] (3 * day)
    (imported [offer_item 1%N None (Some 100); offer_item 2%N None (Some 7)] 0
       init).

(** No list of children names a node twice. *)
Definition children_nodup (t : MarketTree) : Prop :=
  forall i n l, Dict.get i (nodes t) = Some n -> children n = Some l -> NoDup l.

(** An offer whose parent category [10] is not in the tree yet. *)
Definition orphan_sample : MarketTree :=
  imported [offer_item 1%N (Some 10%N) (Some 100)] 0 init.

(** Category [10] holding offer [1]. *)
Definition shelf_sample : MarketTree :=
  imported [category_item 10%N None None; offer_item 1%N (Some 10%N) (Some 100)]
    0 init.

(** Invariant I2 of the data model at node [i]: a parent that is in the tree
    lists [i] among its children. *)
Definition listed_by_parent (t : MarketTree) (i : UUID) : Prop :=
  forall node p pn,
    Dict.get i (nodes t) = Some node ->
    parent_id (info node) = Some p ->
    Dict.get p (nodes t) = Some pn ->
    exists l, children pn = Some l /\ In i l.

(** Invariant I1 of the data model: [children] is [None] exactly on offers. *)
Definition sentinel_on_offers (t : MarketTree) : Prop :=
  forall i n,
    Dict.get i (nodes t) = Some n ->
    (children n = None <-> type (info n) = OFFER).

(** A lone offer [2]. *)
Definition lone_offer : MarketTree :=
  imported [offer_item 2%N None (Some 50)] 0 init.

(** An empty category [10]. *)
Definition empty_category : MarketTree :=
  imported [category_item 10%N None None] 0 init.

(** Category [10] with offers priced 100 and 201. *)
Definition two_offers : MarketTree :=
  imported [category_item 10%N None None; offer_item 1%N (Some 10%N) (Some 100);
            offer_item 2%N (Some 10%N) (Some 201)] 0 init.

(** One offer [1] priced 100 at instant 0. *)
Definition one_offer : MarketTree :=
  imported [offer_item 1%N None (Some 100)] 0 init.

(** One offer [1] imported with price 0. *)
Definition free_offer : MarketTree :=
  imported [offer_item 1%N None (Some 0)] 0 init.

(** What every tree built by the program satisfies: dict keys are unique,
    a node is stored under its own id, children lists have no repetition. *)
Record well_formed (t : MarketTree) : Prop := {
  wf_nodes : NoDup (Dict.keys (nodes t));
  wf_ledger : NoDup (Dict.keys (price_by_id t));
  wf_ids : forall i n, Dict.get i (nodes t) = Some n -> id (info n) = i;
  wf_children : children_nodup t
}.

(** Orders on observations by timestamp. *)
Definition asc (a b : observation) : Prop := fst a <= fst b.
Definition desc (a b : observation) : Prop := fst b <= fst a.

(** ** The console view *)

(** One printed line of [show]: the indentation level and the label
    ["<name> (id=<id>)"]. *)
Record line := {
  indent : nat;
  label_name : string;
  label_id : UUID
}.

(** [node["id"]] where [node] is an element of a children list, that is, an
    identifier: a [UUID] cannot be subscripted. *)
Definition subscript_id (node : UUID) : result UUID := Raise TypeError.

(** The loop of [show] over the children; [rec] is the recursive call, the
    printed lines are accumulated in [out]. *)
Fixpoint show_loop (rec : UUID -> list line * result unit)
    (cs : list UUID) (out : list line) : list line * result unit :=
  match cs with
  | [] => (out, Ok tt)
  | node :: cs' =>
      match subscript_id node with
      | Raise e => (out, Raise e)
      | Ok j =>
          match rec j with
          | (printed, Raise e) => (out ++ printed, Raise e)
          | (printed, Ok _) => show_loop rec cs' (out ++ printed)
          end
      end
  end.

Fixpoint show (fuel : nat) (i : UUID) (level : nat) (t : MarketTree)
  : list line * result unit :=
  match fuel with
  | O => ([], Raise RecursionError)
  | S fuel' =>
      match Dict.get i (nodes t) with
      | None => ([], Raise KeyError)
      | Some n =>
          let printed :=
            [{| indent := level; label_name := name (info n); label_id := i |}] in
          match children n with
          | None => (printed, Raise TypeError)
          | Some cs =>
              show_loop (fun j => show fuel' j (S level) t) cs printed
          end
      end
  end.

(** ** Further notions used to state properties *)

(** Every node of [t] is still in [t'] and has kept all its children. *)
Definition keeps_children (t t' : MarketTree) : Prop :=
  forall k nk,
    Dict.get k (nodes t) = Some nk ->
    exists nk',
      Dict.get k (nodes t') = Some nk'
      /\ forall l, children nk = Some l ->
                   exists l', children nk' = Some l' /\ incl l l'.

Definition v_id (v : View) : UUID :=
  match v with mkView _ i _ _ _ _ _ => i end.

Definition v_date (v : View) : date_str :=
  match v with mkView d _ _ _ _ _ _ => d end.

(** The history of an id, empty when the ledger has none. *)
Definition history (i : UUID) (t : MarketTree) : list observation :=
  match Dict.get i (price_by_id t) with
  | Some h => h
  | None => []
  end.

(** [below t i j]: the aggregation walks of category [i] come across [j],
    that is, [j] is a child of [i] or lies below a child of [i] that is a
    category. *)
Inductive below (t : MarketTree) : UUID -> UUID -> Prop :=
| below_child i n cs j :
    Dict.get i (nodes t) = Some n ->
    children n = Some cs ->
    In j cs ->
    below t i j
| below_deeper i n cs c cn j :
    Dict.get i (nodes t) = Some n ->
    children n = Some cs ->
    In c cs ->
    Dict.get c (nodes t) = Some cn ->
    type (info cn) = CATEGORY ->
    below t c j ->
    below t i j.

(** The stored price of a node, 0 when it has none. *)
Definition offer_price (ns : dict Node) (c : UUID) : Z :=
  match Dict.get c ns with
  | Some cn => match price (info cn) with Some p => p | None => 0 end
  | None => 0
  end.

Definition total_price (ns : dict Node) (cs : list UUID) : Z :=
  fold_right Z.add 0 (map (offer_price ns) cs).

(** Category [10] once held offer [1]; the offer moved to category [20] and
    was then deleted. *)
Definition moved_and_deleted : MarketTree :=
  fst (App.delete_item_by_id true 1%N
         (imported [offer_item 1%N (Some 20%N) (Some 100)] 1
            (imported [category_item 10%N None None; category_item 20%N None None;
                       offer_item 1%N (Some 10%N) (Some 100)] 0 init))).

(** [reorder l l']: [l'] is [l] with observations of different timestamps
    moved past each other; observations of one timestamp keep their order. *)
Inductive reorder : list observation -> list observation -> Prop :=
| reorder_refl l : reorder l l
| reorder_skip x l l' : reorder l l' -> reorder (x :: l) (x :: l')
| reorder_swap x y l : fst x <> fst y -> reorder (x :: y :: l) (y :: x :: l)
| reorder_trans l1 l2 l3 : reorder l1 l2 -> reorder l2 l3 -> reorder l1 l3.

Definition same_entry (e e' : UUID * list observation) : Prop :=
  fst e' = fst e /\ reorder (snd e) (snd e').

(** [t'] is [t] up to the order in which histories are stored. *)
Definition same_catalogue (t t' : MarketTree) : Prop :=
  nodes t' = nodes t /\ Forall2 same_entry (price_by_id t) (price_by_id t').

(** Offers [1] and [2], both observed at instant 0. *)
Definition two_lone_offers : MarketTree :=
  imported [offer_item 1%N None (Some 100); offer_item 2%N None (Some 7)] 0 init.

(** Offer [1] was imported under category [10] and then again under
    category [20]. *)
Definition moved_offer : MarketTree :=
  imported [offer_item 1%N (Some 20%N) (Some 100)] 1
    (imported [category_item 10%N None None; category_item 20%N None None;
               offer_item 1%N (Some 10%N) (Some 100)] 0 init).

(** Offer [1] names [2] as its parent; [2] was imported later, as an
    offer. *)
Definition offer_under_offer : MarketTree :=
  imported [offer_item 2%N None (Some 5)] 1
    (imported [offer_item 1%N (Some 2%N) (Some 5)] 0 init).

(** Offer [1] names [10] as its parent; category [10] was imported later,
    with a price. *)
Definition priced_category : MarketTree :=
  imported [category_item 10%N None (Some 5)] 1 orphan_sample.

(** * Properties *)

(** ** Dictionaries *)

Section DictFacts.
Context {V : Type}.
Implicit Types (d : dict V) (k : UUID) (v : V).

Lemma get_set_same k v d : Dict.get k (Dict.set k v d) = Some v.
Proof.
  induction d as [|[k' v'] d IH]; simpl.
  - now rewrite N.eqb_refl.
  - destruct (N.eqb k k') eqn:E; simpl; rewrite ?E, ?N.eqb_refl; auto.
Qed.

Lemma get_set_other k k' v d :
  k' <> k -> Dict.get k' (Dict.set k v d) = Dict.get k' d.
Proof.
  intros Hne. induction d as [|[k0 v0] d IH]; simpl.
  - apply N.eqb_neq in Hne. now rewrite Hne.
  - destruct (N.eqb k k0) eqn:E; simpl.
    + apply N.eqb_eq in E. subst k0.
      apply N.eqb_neq in Hne. now rewrite Hne.
    + now rewrite IH.
Qed.

Lemma get_del_other k k' d :
  k' <> k -> Dict.get k' (Dict.del k d) = Dict.get k' d.
Proof.
  intros Hne. induction d as [|[k0 v0] d IH]; simpl; auto.
  destruct (N.eqb k k0) eqn:E; simpl.
  - apply N.eqb_eq in E. subst k0.
    apply N.eqb_neq in Hne. now rewrite Hne.
  - now rewrite IH.
Qed.

Lemma get_In k v d : Dict.get k d = Some v -> In (k, v) d.
Proof.
  induction d as [|[k0 v0] d IH]; simpl; [discriminate|].
  destruct (N.eqb k k0) eqn:E; intros H.
  - apply N.eqb_eq in E. inversion H. subst. now left.
  - right. auto.
Qed.

Lemma get_None_keys k d : Dict.get k d = None <-> ~ In k (Dict.keys d).
Proof.
  induction d as [|[k0 v0] d IH]; simpl.
  - tauto.
  - destruct (N.eqb k k0) eqn:E.
    + apply N.eqb_eq in E. subst. split; [discriminate | intros H; elim H; now left].
    + apply N.eqb_neq in E. rewrite IH. split.
      * intros H [H1|H1]; [now subst | auto].
      * intros H H1. apply H. now right.
Qed.

Lemma In_get k v d : NoDup (Dict.keys d) -> In (k, v) d -> Dict.get k d = Some v.
Proof.
  induction d as [|[k0 v0] d IH]; simpl; [tauto|].
  intros Hnd [H|H].
  - inversion H. subst. now rewrite N.eqb_refl.
  - inversion Hnd as [|? ? Hni Hnd']. subst.
    destruct (N.eqb k k0) eqn:E.
    + apply N.eqb_eq in E. subst. elim Hni.
      change k0 with (fst (k0, v)). now apply in_map.
    + auto.
Qed.

Lemma get_del_same k d : NoDup (Dict.keys d) -> Dict.get k (Dict.del k d) = None.
Proof.
  induction d as [|[k0 v0] d IH]; simpl; auto.
  intros Hnd. inversion Hnd as [|? ? Hni Hnd']. subst.
  destruct (N.eqb k k0) eqn:E; simpl.
  - apply N.eqb_eq in E. subst. now apply get_None_keys.
  - rewrite E. auto.
Qed.

Lemma keys_set k v d :
  Dict.keys (Dict.set k v d)
  = if Dict.mem k d then Dict.keys d else Dict.keys d ++ [k].
Proof.
  unfold Dict.mem. induction d as [|[k0 v0] d IH]; simpl; auto.
  destruct (N.eqb k k0) eqn:E; simpl.
  - apply N.eqb_eq in E. now subst.
  - rewrite IH. now destruct (Dict.get k d).
Qed.

Lemma NoDup_keys_set k v d :
  NoDup (Dict.keys d) -> NoDup (Dict.keys (Dict.set k v d)).
Proof.
  intros Hnd. rewrite keys_set. unfold Dict.mem.
  destruct (Dict.get k d) eqn:E; auto.
  apply get_None_keys in E.
  apply NoDup_rev in Hnd.
  rewrite <- (rev_involutive (Dict.keys d ++ [k])).
  apply NoDup_rev. rewrite rev_app_distr. simpl.
  constructor; auto. now rewrite <- in_rev.
Qed.

Lemma keys_del_incl k d : incl (Dict.keys (Dict.del k d)) (Dict.keys d).
Proof.
  induction d as [|[k0 v0] d IH]; simpl; [apply incl_refl|].
  destruct (N.eqb k k0); simpl.
  - apply incl_tl, incl_refl.
  - apply incl_cons; [now left | now apply incl_tl].
Qed.

Lemma NoDup_keys_del k d :
  NoDup (Dict.keys d) -> NoDup (Dict.keys (Dict.del k d)).
Proof.
  induction d as [|[k0 v0] d IH]; simpl; auto.
  intros Hnd. inversion Hnd as [|? ? Hni Hnd']. subst.
  destruct (N.eqb k k0); simpl; auto.
  constructor; auto. intros H. apply Hni. now apply (keys_del_incl k d).
Qed.

Lemma mem_get k d : Dict.mem k d = true <-> exists v, Dict.get k d = Some v.
Proof.
  unfold Dict.mem. destruct (Dict.get k d); split; eauto; try discriminate.
  intros [v H]. discriminate.
Qed.
End DictFacts.

Lemma mem_id_In x l : mem_id x l = true <-> In x l.
Proof.
  unfold mem_id. rewrite existsb_exists. split.
  - intros [y [Hy E]]. apply N.eqb_eq in E. now subst.
  - intros H. exists x. split; auto. apply N.eqb_refl.
Qed.

Lemma mem_id_false x l : mem_id x l = false <-> ~ In x l.
Proof.
  rewrite <- mem_id_In. destruct (mem_id x l); split; congruence.
Qed.


(** ** Sorting the ledger *)

Lemma insert_asc_perm x l : Permutation (x :: l) (insert_asc x l).
Proof.
  induction l as [|y l IH]; simpl; auto.
  destruct (fst x <=? fst y); auto.
  rewrite perm_swap. now constructor.
Qed.

Lemma sort_asc_perm l : Permutation l (sort_asc l).
Proof.
  induction l as [|x l IH]; simpl; auto.
  rewrite <- insert_asc_perm. now constructor.
Qed.

Lemma insert_asc_sorted x l :
  StronglySorted asc l -> StronglySorted asc (insert_asc x l).
Proof.
  induction 1 as [|y l Hs IH Hall]; simpl.
  - repeat constructor.
  - destruct (fst x <=? fst y) eqn:E.
    + apply Z.leb_le in E. constructor.
      * now constructor.
      * constructor; auto.
        eapply Forall_impl; [|exact Hall]. unfold asc. intros; lia.
    + apply Z.leb_gt in E. constructor; auto.
      eapply Permutation_Forall; [apply insert_asc_perm|].
      constructor; auto. unfold asc. lia.
Qed.

Lemma sort_asc_sorted l : StronglySorted asc (sort_asc l).
Proof.
  induction l as [|x l IH]; simpl; [constructor | now apply insert_asc_sorted].
Qed.

Lemma insert_desc_perm x l : Permutation (x :: l) (insert_desc x l).
Proof.
  induction l as [|y l IH]; simpl; auto.
  destruct (fst y <=? fst x); auto.
  rewrite perm_swap. now constructor.
Qed.

Lemma sort_desc_perm l : Permutation l (sort_desc l).
Proof.
  induction l as [|x l IH]; simpl; auto.
  rewrite <- insert_desc_perm. now constructor.
Qed.

Lemma insert_desc_sorted x l :
  StronglySorted desc l -> StronglySorted desc (insert_desc x l).
Proof.
  induction 1 as [|y l Hs IH Hall]; simpl.
  - repeat constructor.
  - destruct (fst y <=? fst x) eqn:E.
    + apply Z.leb_le in E. constructor.
      * now constructor.
      * constructor; auto.
        eapply Forall_impl; [|exact Hall]. unfold desc. intros; lia.
    + apply Z.leb_gt in E. constructor; auto.
      eapply Permutation_Forall; [apply insert_desc_perm|].
      constructor; auto. unfold desc. lia.
Qed.

Lemma sort_desc_sorted l : StronglySorted desc (sort_desc l).
Proof.
  induction l as [|x l IH]; simpl; [constructor | now apply insert_desc_sorted].
Qed.

Lemma filter_sorted {A} (R : A -> A -> Prop) (f : A -> bool) l :
  StronglySorted R l -> StronglySorted R (filter f l).
Proof.
  induction 1 as [|x l Hs IH Hall]; simpl; [constructor|].
  destruct (f x); auto. constructor; auto.
  apply Forall_forall. intros y Hy. apply filter_In in Hy.
  rewrite Forall_forall in Hall. now apply Hall.
Qed.

(** ** Statistics of an offer *)

Lemma in_intervalb_spec s e d : in_intervalb s e d = true <-> in_interval s e d.
Proof.
  unfold in_intervalb, in_interval. rewrite andb_true_iff.
  destruct s as [s|], e as [e|]; rewrite ?Z.leb_le; split.
  all: try (intros [H1 H2]; split; intros ? E; inversion E; subst; auto; fail).
  all: try (intros [H1 H2]; split; auto; congruence).
Qed.

Lemma result_date_interval s e d :
  result_date s e d = if in_intervalb s e d then Some d else None.
Proof.
  unfold result_date, in_intervalb.
  destruct s as [s|], e as [e|]; simpl; auto.
  now destruct (s <=? d).
Qed.

Lemma offer_items_filter i n s e h :
  offer_items i n s e h
  = map (fun o => statistic_unit i n (fst o) (Some (snd o)))
      (filter (observed_in s e) h).
Proof.
  induction h as [|[d p] h IH]; simpl; auto.
  unfold observed_in at 1. simpl.
  rewrite result_date_interval. destruct (in_intervalb s e d); simpl; now rewrite IH.
Qed.

(** C3. For an OFFER in the tree that has ledger history, the statistics
    query returns one entry per ledger observation whose timestamp lies in
    the closed interval [[start, end]] (an absent bound is no bound), and no
    other entry; the entries come in ascending timestamp order and carry the
    offer's identity. The handler returns the same list unless both bounds
    are given with [end < start]. *)
Theorem get_statistic_offer_history fuel i s e t node h :
  Dict.get i (nodes t) = Some node ->
  type (info node) = OFFER ->
  Dict.get i (price_by_id t) = Some h ->
  exists items,
    snd (get_statistic_by_id fuel i s e t) = Ok items
    /\ Permutation (map shown items) (map as_shown (filter (observed_in s e) h))
    /\ (forall o, observed_in s e o = true <-> in_interval s e (fst o))
    /\ StronglySorted Z.le (map st_date items)
    /\ Forall (fun u => st_id u = i /\ st_name u = name (info node)
                        /\ st_parentId u = parent_id (info node)
                        /\ st_type u = OFFER) items
    /\ ((forall x y, s = Some x -> e = Some y -> x <= y) ->
        snd (App.get_statistic_by_id fuel i s e t) = Ok items).
Proof.
  intros Hn Hty Hh.
  exists (offer_items i (info node) s e (sort_asc h)).
  assert (Hrun : snd (get_statistic_by_id fuel i s e t)
                 = Ok (offer_items i (info node) s e (sort_asc h))).
  { unfold get_statistic_by_id. rewrite Hn, Hty, Hh. reflexivity. }
  split; [exact Hrun|].
  rewrite offer_items_filter, !map_map. simpl.
  split.
  { apply Permutation_map. clear.
    assert (P : Permutation h (sort_asc h)) by apply sort_asc_perm.
    induction P; simpl; auto.
    - destruct (observed_in s e x); auto.
    - destruct (observed_in s e x), (observed_in s e y); auto. apply perm_swap.
    - etransitivity; eauto. }
  split.
  { intros o. apply in_intervalb_spec. }
  split.
  { assert (Hs : StronglySorted asc (filter (observed_in s e) (sort_asc h)))
      by apply filter_sorted, sort_asc_sorted.
    induction Hs as [|x l Hs IH Hall]; simpl; constructor; auto.
    apply Forall_forall. intros d Hd. apply in_map_iff in Hd.
    destruct Hd as [y [<- Hy]]. rewrite Forall_forall in Hall.
    now apply Hall. }
  split.
  { apply Forall_forall. intros u Hu. apply in_map_iff in Hu.
    destruct Hu as [o [<- _]]. simpl. now rewrite Hty. }
  intros Hrange. unfold App.get_statistic_by_id.
  assert (Hbad : match e, s with Some e0, Some s0 => e0 <? s0 | _, _ => false end
                 = false).
  { destruct e as [e0|], s as [s0|]; auto. apply Z.ltb_ge. now apply Hrange. }
  rewrite Hbad. unfold Dict.mem. rewrite Hn. simpl.
  rewrite Hrun, offer_items_filter. reflexivity.
Qed.

Lemma get_statistic_offer_history_witness :
  exists items,
    snd (get_statistic_by_id 1 1%N (Some 1000) (Some 2000) two_prices) = Ok items
    /\ map shown items = [(1000, Some 100); (2000, Some 300)].
Proof.
  destruct (get_statistic_offer_history 1 1%N (Some 1000) (Some 2000) two_prices
              {| info := App.item_dict (offer_item 1%N None (Some 100)) 1000;
                 children := None |}
              [(2000, 300); (1000, 100)]
              eq_refl eq_refl eq_refl) as [items [Hrun _]].
  exists items. split; [exact Hrun|].
  vm_compute in Hrun. inversion Hrun. reflexivity.
Defined.

(** ** Recent sales *)

Lemma days_le_1 d node_date :
  days d node_date <= 1 <-> d - node_date < 2 * microseconds_per_day.
Proof.
  unfold days, microseconds_per_day. split; intros H.
  - apply Z.nle_gt. intros Hge.
    assert (2 <= (d - node_date) / 86400000000)
      by (apply Z.div_le_lower_bound; lia).
    lia.
  - assert ((d - node_date) / 86400000000 < 2)
      by (apply Z.div_lt_upper_bound; lia).
    lia.
Qed.

Lemma first_recent_Some d h o :
  first_recent d h = Some o -> In o h /\ days d (fst o) <= 1.
Proof.
  induction h as [|[nd np] h IH]; simpl; [discriminate|].
  destruct (days d nd <=? 1) eqn:E.
  - intros H. inversion H. subst. simpl. apply Z.leb_le in E. auto.
  - intros H. destruct (IH H). auto.
Qed.

Lemma first_recent_None d h :
  first_recent d h = None -> forall o, In o h -> ~ days d (fst o) <= 1.
Proof.
  induction h as [|[nd np] h IH]; simpl; [tauto|].
  destruct (days d nd <=? 1) eqn:E; [discriminate|].
  intros H o [Ho|Ho].
  - subst. simpl. apply Z.leb_gt in E. lia.
  - now apply IH.
Qed.

Lemma first_recent_latest d h o :
  StronglySorted desc h ->
  first_recent d h = Some o ->
  forall o', In o' h -> fst o' <= fst o.
Proof.
  induction 1 as [|[nd np] h Hs IH Hall]; simpl; [discriminate|].
  destruct (days d nd <=? 1) eqn:E.
  - intros H. inversion H. subst. simpl. intros o' [<-|Ho']; simpl; [lia|].
    rewrite Forall_forall in Hall. apply (Hall o' Ho').
  - intros H o' [<-|Ho']; [|now apply IH].
    simpl. apply first_recent_Some in H. destruct H as [Ho Hq].
    apply Z.leb_gt in E.
    rewrite days_le_1 in Hq.
    assert (~ days d nd <= 1) by lia.
    rewrite days_le_1 in H. lia.
Qed.

Lemma sales_loop_run d ns ledger items :
  (forall i, In i (Dict.keys ledger) -> exists n, Dict.get i ns = Some n) ->
  sales_loop d ns ledger items
  = (map (fun entry => (fst entry, sort_desc (snd entry))) ledger,
     Ok (items ++ flat_map (sale_of d ns) ledger)).
Proof.
  revert items. induction ledger as [|[i h] ledger IH]; intros items Hin; simpl.
  - now rewrite app_nil_r.
  - unfold sale_of at 1. simpl.
    destruct (Hin i) as [n Hn]; [now left|].
    assert (Hin' : forall j, In j (Dict.keys ledger) ->
                             exists n, Dict.get j ns = Some n)
      by (intros j Hj; apply Hin; now right).
    destruct (first_recent d (sort_desc h)) as [[nd np]|].
    + rewrite Hn, IH by assumption. now rewrite <- app_assoc.
    + now rewrite IH by assumption.
Qed.

Lemma sale_of_In d ns i h u :
  In u (sale_of d ns (i, h)) ->
  exists node node_date,
    Dict.get i ns = Some node
    /\ first_recent d (sort_desc h) = Some (node_date, sale_price u)
    /\ u = sale_unit (info node) node_date (sale_price u).
Proof.
  unfold sale_of. simpl.
  destruct (first_recent d (sort_desc h)) as [[nd np]|]; [|intros []].
  destruct (Dict.get i ns) as [node|]; [|intros []].
  intros [<-|[]]. exists node, nd. simpl. auto.
Qed.

Lemma sale_of_qualifying d ns i h node o :
  Dict.get i ns = Some node ->
  In o h -> days d (fst o) <= 1 ->
  exists u, sale_of d ns (i, h) = [u] /\ sale_id u = id (info node).
Proof.
  intros Hn Ho Hq. unfold sale_of. simpl. rewrite Hn.
  destruct (first_recent d (sort_desc h)) as [[nd np]|] eqn:E.
  - eexists. split; reflexivity.
  - exfalso. apply (first_recent_None _ _ E o); auto.
    apply (Permutation_in _ (sort_desc_perm h) Ho).
Qed.

(** When every offer of the ledger is in the tree, the sales query
    returns a list with at most one entry per offer. An entry stands for an
    observation of its offer that is within the window ([days <= 1], that
    is, less than two whole days before [asOf]) and is the offer's most
    recent one; every offer that has an observation within the window has an
    entry, and an offer without one, or without history, has none. *)
Theorem get_sales_most_recent d t :
  NoDup (Dict.keys (price_by_id t)) ->
  (forall i, In i (Dict.keys (price_by_id t)) ->
             exists n, Dict.get i (nodes t) = Some n /\ id (info n) = i) ->
  exists items,
    snd (get_sales d t) = Ok items
    /\ NoDup (map sale_id items)
    /\ (forall u, In u items ->
          exists h node_date,
            Dict.get (sale_id u) (price_by_id t) = Some h
            /\ In (node_date, sale_price u) h
            /\ sale_date u = convert_date node_date
            /\ days d node_date <= 1
            /\ d - node_date < 2 * microseconds_per_day
            /\ forall o, In o h -> fst o <= node_date)
    /\ (forall i h o,
          Dict.get i (price_by_id t) = Some h ->
          In o h -> days d (fst o) <= 1 -> In i (map sale_id items))
    /\ (forall i,
          (forall h o, Dict.get i (price_by_id t) = Some h -> In o h ->
                       1 < days d (fst o)) ->
          ~ In i (map sale_id items)).
Proof.
  intros Hnd Hin.
  exists (flat_map (sale_of d (nodes t)) (price_by_id t)).
  assert (Hkeys : forall i, In i (Dict.keys (price_by_id t)) ->
                            exists n, Dict.get i (nodes t) = Some n).
  { intros i Hi. destruct (Hin i Hi) as [n [Hn _]]. eauto. }
  assert (Hentry : forall u, In u (flat_map (sale_of d (nodes t)) (price_by_id t)) ->
            exists h node_date,
              Dict.get (sale_id u) (price_by_id t) = Some h
              /\ first_recent d (sort_desc h) = Some (node_date, sale_price u)
              /\ sale_date u = convert_date node_date).
  { intros u Hu. apply in_flat_map in Hu. destruct Hu as [[i h] [Hih Hu]].
    apply sale_of_In in Hu. destruct Hu as [node [nd [Hn [Hf Hu]]]].
    assert (Hi : In i (Dict.keys (price_by_id t)))
      by (change i with (fst (i, h)); now apply in_map).
    destruct (Hin i Hi) as [n [Hn' Hid]].
    rewrite Hn in Hn'. inversion Hn'. subst n.
    exists h, nd. rewrite Hu. simpl. rewrite Hid.
    split; [now apply In_get | auto]. }
  split.
  { unfold get_sales. now rewrite sales_loop_run. }
  split.
  { clear Hentry Hkeys. revert Hnd Hin.
    generalize (nodes t) as ns. generalize (price_by_id t) as ledger.
    induction ledger as [|[i h] ledger IH]; intros ns Hnd Hin; simpl.
    - constructor.
    - inversion Hnd as [|? ? Hni Hnd']. subst.
      assert (Hin' : forall j, In j (Dict.keys ledger) ->
                exists n, Dict.get j ns = Some n /\ id (info n) = j)
        by (intros j Hj; apply Hin; now right).
      specialize (IH ns Hnd' Hin').
      assert (Hsub : forall u, In u (flat_map (sale_of d ns) ledger) ->
                               In (sale_id u) (Dict.keys ledger)).
      { intros u Hu. apply in_flat_map in Hu. destruct Hu as [[j hj] [Hj Hu]].
        apply sale_of_In in Hu. destruct Hu as [node [nd [Hn [_ Hu]]]].
        assert (Hjk : In j (Dict.keys ledger))
          by (change j with (fst (j, hj)); now apply in_map).
        destruct (Hin' j Hjk) as [n [Hn' Hid]].
        rewrite Hn in Hn'. inversion Hn'. subst n.
        rewrite Hu. simpl. now rewrite Hid. }
      rewrite map_app.
      unfold sale_of at 1. simpl.
      destruct (first_recent d (sort_desc h)) as [[nd np]|]; simpl; auto.
      destruct (Hin i) as [n [Hn Hid]]; [now left|]. rewrite Hn. simpl.
      constructor; auto. rewrite Hid. intros Hc. apply Hni.
      apply in_map_iff in Hc. destruct Hc as [u [<- Hu]]. now apply Hsub. }
  split.
  { intros u Hu. destruct (Hentry u Hu) as [h [nd [Hh [Hf Hdate]]]].
    exists h, nd. split; auto.
    destruct (first_recent_Some _ _ _ Hf) as [Ho Hq]. simpl in Hq.
    split.
    { apply (Permutation_in _ (Permutation_sym (sort_desc_perm h)) Ho). }
    split; auto. split; auto. split; [now apply days_le_1|].
    intros o Hoh.
    apply (first_recent_latest d (sort_desc h) _ (sort_desc_sorted h) Hf o).
    apply (Permutation_in _ (sort_desc_perm h) Hoh). }
  split.
  { intros i h o Hh Ho Hq.
    apply get_In in Hh.
    assert (Hi : In i (Dict.keys (price_by_id t)))
      by (change i with (fst (i, h)); now apply in_map).
    destruct (Hin i Hi) as [n [Hn Hid]].
    destruct (sale_of_qualifying d (nodes t) i h n o Hn Ho Hq) as [u [Hu Hsid]].
    apply in_map_iff. exists u. split; [congruence|].
    apply in_flat_map. exists (i, h). split; auto. rewrite Hu. now left. }
  intros i Hnone Hi.
  apply in_map_iff in Hi. destruct Hi as [u [<- Hu]].
  destruct (Hentry u Hu) as [h [nd [Hh [Hf _]]]].
  destruct (first_recent_Some _ _ _ Hf) as [Ho Hq]. simpl in Hq.
  apply (Permutation_in _ (Permutation_sym (sort_desc_perm h))) in Ho.
  specialize (Hnone h _ Hh Ho). simpl in Hnone. lia.
Qed.

Lemma get_sales_most_recent_witness :
  exists items,
    snd (get_sales (4 * day) sales_sample) = Ok items
    /\ map sale_id items = [1%N]
    /\ map sale_price items = [120].
Proof.
  assert (Hnd : NoDup (Dict.keys (price_by_id sales_sample))).
  { vm_compute. repeat constructor; simpl; intuition discriminate. }
  assert (Hin : forall i, In i (Dict.keys (price_by_id sales_sample)) ->
            exists n, Dict.get i (nodes sales_sample) = Some n /\ id (info n) = i).
  { intros i Hi. vm_compute in Hi.
    destruct Hi as [<-|[<-|[]]]; eexists; split; reflexivity. }
  destruct (get_sales_most_recent (4 * day) sales_sample Hnd Hin)
    as [items [Hrun _]].
  exists items. split; [exact Hrun|].
  vm_compute in Hrun. inversion Hrun. split; reflexivity.
Defined.

(** ** Upsert *)

Lemma adopt_None i items ch :
  adopt i items None = Ok ch ->
  ch = None /\ forall j n, In (j, n) items -> parent_is i n = false.
Proof.
  induction items as [|[j n] items IH]; simpl.
  - intros H. inversion H. split; auto. intros ? ? [].
  - destruct (parent_is i n) eqn:E; [discriminate|].
    intros H. destruct (IH H) as [-> Hall]. split; auto.
    intros j' n' [Hj|Hj]; [inversion Hj; now subst | eauto].
Qed.

Lemma adopt_Some i items l ch :
  adopt i items (Some l) = Ok ch ->
  exists l',
    ch = Some l'
    /\ incl l l'
    /\ (NoDup l -> NoDup l')
    /\ (forall j n, In (j, n) items -> parent_is i n = true -> In j l').
Proof.
  revert l. induction items as [|[j n] items IH]; intros l; simpl.
  - intros H. inversion H. exists l. repeat split; auto using incl_refl.
    intros ? ? [].
  - destruct (parent_is i n) eqn:E.
    + destruct (mem_id j l) eqn:M.
      * intros H. destruct (IH _ H) as [l' [-> [Hi [Hnd Hall]]]].
        exists l'. repeat split; auto.
        intros j' n' [Hj|Hj] Hp; [|eauto].
        inversion Hj. subst. apply Hi. now apply mem_id_In.
      * intros H. destruct (IH _ H) as [l' [-> [Hi [Hnd Hall]]]].
        exists l'. split; auto. split.
        { intros x Hx. apply Hi, in_or_app. now left. }
        split.
        { intros Hl. apply Hnd.
          apply mem_id_false in M.
          apply NoDup_rev in Hl.
          rewrite <- (rev_involutive (l ++ [j])).
          apply NoDup_rev. rewrite rev_app_distr. simpl.
          constructor; auto. now rewrite <- in_rev. }
        intros j' n' [Hj|Hj] Hp; [|eauto].
        inversion Hj. subst. apply Hi, in_or_app. right. now left.
    + intros H. destruct (IH _ H) as [l' [-> [Hi [Hnd Hall]]]].
      exists l'. repeat split; auto.
      intros j' n' [Hj|Hj] Hp; [|eauto].
      inversion Hj. subst. congruence.
Qed.

Lemma NoDup_snoc (x : UUID) l : NoDup l -> ~ In x l -> NoDup (l ++ [x]).
Proof.
  intros Hl Hx. apply NoDup_rev in Hl.
  rewrite <- (rev_involutive (l ++ [x])).
  apply NoDup_rev. rewrite rev_app_distr. simpl.
  constructor; auto. now rewrite <- in_rev.
Qed.

Lemma with_children_same n : with_children n (children n) = n.
Proof. now destruct n. Qed.

(** What a completed registration with the parent leaves behind. *)
Lemma link_parent_Ok i p t t' :
  link_parent i p t = (t', Ok tt) ->
  price_by_id t' = price_by_id t
  /\ (forall k, p <> Some k -> Dict.get k (nodes t') = Dict.get k (nodes t))
  /\ (forall k, Dict.get k (nodes t) = None -> Dict.get k (nodes t') = None)
  /\ (forall k pn, p = Some k -> Dict.get k (nodes t) = Some pn ->
        exists l l',
          children pn = Some l
          /\ Dict.get k (nodes t') = Some (with_children pn (Some l'))
          /\ incl l l' /\ In i l' /\ (NoDup l -> NoDup l')).
Proof.
  unfold link_parent. destruct p as [pid|].
  2:{ intros H. inversion H. subst. repeat split; auto. intros; discriminate. }
  destruct (Dict.get pid (nodes t)) as [pn|] eqn:Hp.
  2:{ intros H. inversion H. subst. repeat split; auto.
      intros k pn' E. inversion E. subst. congruence. }
  destruct (children pn) as [l|] eqn:Hc; [|discriminate].
  destruct (mem_id i l) eqn:M; intros H; inversion H; subst; clear H.
  - repeat split; auto.
    intros k pn' E Hk. inversion E. subst k. rewrite Hp in Hk. inversion Hk. subst pn'.
    exists l, l. split; auto. split.
    { rewrite Hp, <- Hc. now rewrite with_children_same. }
    repeat split; auto using incl_refl. now apply mem_id_In.
  - simpl. split; auto. split.
    { intros k Hk. apply get_set_other. congruence. }
    split.
    { intros k Hk. rewrite get_set_other; auto. congruence. }
    intros k pn' E Hk. inversion E. subst k. rewrite Hp in Hk. inversion Hk. subst pn'.
    exists l, (l ++ [i]). rewrite get_set_same. repeat split; auto.
    + intros x Hx. apply in_or_app. now left.
    + apply in_or_app. right. now left.
    + intros Hl. apply NoDup_snoc; auto. now apply mem_id_false.
Qed.

Lemma nodes_add_price i d p t : nodes (add_price i d p t) = nodes t.
Proof. unfold add_price. now destruct (Dict.get i (price_by_id t)). Qed.

(** A completed [add] is a write of the node, possibly the adoption loop,
    and a completed registration with the parent. *)
Lemma add_Ok node t t' :
  add node t = (t', Ok tt) ->
  exists t2 ch,
    link_parent (id node) (parent_id node) t2 = (t', Ok tt)
    /\ (forall j, j <> id node -> Dict.get j (nodes t2) = Dict.get j (nodes t))
    /\ Dict.get (id node) (nodes t2) = Some {| info := node; children := ch |}
    /\ ((ch = kept_children node t
         /\ (truthy (price node) = true \/ is_category (type node) = false))
        \/ (truthy (price node) = false
            /\ is_category (type node) = true
            /\ adopt (id node)
                 (Dict.set (id node)
                    {| info := node; children := kept_children node t |}
                    (nodes t))
                 (kept_children node t) = Ok ch)).
Proof.
  unfold add.
  set (i := id node). set (kept := kept_children node t).
  set (t1 := with_nodes t (Dict.set i {| info := node; children := kept |} (nodes t))).
  assert (H1 : forall j, j <> i -> Dict.get j (nodes t1) = Dict.get j (nodes t))
    by (intros j Hj; apply get_set_other; auto).
  assert (H2 : Dict.get i (nodes t1) = Some {| info := node; children := kept |})
    by apply get_set_same.
  destruct (truthy (price node)) eqn:Tr.
  - destruct (price node) as [p|] eqn:Hp; intros H.
    + exists (add_price i (date node) p t1), kept.
      rewrite nodes_add_price. repeat split; auto.
    + exists t1, kept. repeat split; auto.
  - destruct (is_category (type node)) eqn:Cat.
    + destruct (adopt i (nodes t1) kept) as [ch|e] eqn:Ha; [|discriminate].
      intros H.
      exists (with_nodes t1 (Dict.set i {| info := node; children := ch |} (nodes t1))), ch.
      split; auto. split.
      { intros j Hj. simpl. rewrite !get_set_other; auto. }
      split; [apply get_set_same|]. right. auto.
    + intros H. exists t1, kept. repeat split; auto.
Qed.

(** C5, first half: the refuted reading. A CATEGORY written with a price
    that counts as true goes to the ledger and skips the adoption loop: the
    offer waiting for it stays out of its children. *)
Lemma priced_category_adopts_nothing :
  ~ (forall node t t' j n,
       type node = CATEGORY ->
       add node t = (t', Ok tt) ->
       Dict.get j (nodes t) = Some n ->
       j <> id node ->
       parent_id (info n) = Some (id node) ->
       exists cn l,
         Dict.get (id node) (nodes t') = Some cn
         /\ children cn = Some l /\ In j l).
Proof.
  intros H.
  destruct (H (App.item_dict (category_item 10%N None (Some 5)) 0)
              orphan_sample
              (fst (add (App.item_dict (category_item 10%N None (Some 5)) 0)
                      orphan_sample))
              1%N
              {| info := App.item_dict (offer_item 1%N (Some 10%N) (Some 100)) 0;
                 children := None |}
              eq_refl eq_refl eq_refl ltac:(discriminate) eq_refl)
    as [cn [l [Hget [Hch Hin]]]].
  vm_compute in Hget. inversion Hget. subst cn.
  simpl in Hch. inversion Hch. subst l. destruct Hin.
Qed.

(** C5, as amended. After a completed upsert of a node whose [parentId]
    names a node of the tree (a CATEGORY in particular) whose children were
    free of repetitions, the parent's children contain the node's id exactly
    once; and when a CATEGORY is written without a price that counts as true
    (absent or 0), every other node of the tree whose [parentId] is the
    category's id is among the category's children afterwards, as is the
    category itself when it names itself as parent. *)
Theorem add_parent_child_sync node t t' :
  add node t = (t', Ok tt) ->
  (forall p pn,
     parent_id node = Some p ->
     Dict.get p (nodes t) = Some pn ->
     (forall l, children pn = Some l -> NoDup l) ->
     exists pn' l,
       Dict.get p (nodes t') = Some pn'
       /\ children pn' = Some l
       /\ count_occ N.eq_dec l (id node) = 1%nat)
  /\ (type node = CATEGORY ->
      truthy (price node) = false ->
      forall j n,
        (Dict.get j (nodes t) = Some n /\ j <> id node
         \/ j = id node /\ info n = node) ->
        parent_id (info n) = Some (id node) ->
        exists cn l,
          Dict.get (id node) (nodes t') = Some cn
          /\ children cn = Some l
          /\ In j l).
Proof.
  intros Hadd.
  destruct (add_Ok _ _ _ Hadd) as [t2 [ch [Hlink [Hother [Hself Hch]]]]].
  destruct (link_parent_Ok _ _ _ _ Hlink) as [_ [Hframe [_ Hpar]]].
  split.
  - intros p pn Hp Hget Hnd.
    assert (Hp2 : exists pn2, Dict.get p (nodes t2) = Some pn2
                    /\ forall l, children pn2 = Some l -> NoDup l).
    { destruct (N.eq_dec p (id node)) as [->|Hne].
      - eexists. split; [exact Hself|]. simpl. intros l Hl. subst ch.
        destruct Hch as [[Hk _]|[_ [_ Ha]]].
        + apply Hnd. unfold kept_children in Hk. rewrite Hget in Hk. congruence.
        + unfold kept_children in Ha. rewrite Hget in Ha.
          destruct (children pn) as [l0|] eqn:Hc0.
          * apply adopt_Some in Ha. destruct Ha as [l' [E [_ [Hn _]]]].
            inversion E. subst. auto.
          * apply adopt_None in Ha. destruct Ha; discriminate.
      - exists pn. rewrite Hother; auto. }
    destruct Hp2 as [pn2 [Hget2 Hnd2]].
    destruct (Hpar p pn2 Hp Hget2) as [l [l' [Hc [Hget' [_ [Hin Hnd']]]]]].
    exists (with_children pn2 (Some l')), l'. repeat split; auto.
    apply NoDup_count_occ'; auto.
  - intros Hty Htr j n Hj Hpj.
    destruct Hch as [[_ [Ht|Hc]]|[_ [_ Ha]]]; [congruence | now rewrite Hty in Hc |].
    set (written := {| info := node; children := kept_children node t |}) in Ha.
    assert (Hitem : exists n', In (j, n') (Dict.set (id node) written (nodes t))
                               /\ parent_is (id node) n' = true).
    { destruct Hj as [[Hj Hne]|[-> Hinfo]].
      - exists n. split.
        + apply get_In. rewrite get_set_other; auto.
        + unfold parent_is. rewrite Hpj. apply N.eqb_refl.
      - exists written. split.
        + apply get_In, get_set_same.
        + rewrite Hinfo in Hpj. unfold parent_is. simpl. rewrite Hpj.
          apply N.eqb_refl. }
    destruct Hitem as [n' [Hin Hpar']].
    assert (Hl0 : exists l0, ch = Some l0 /\ In j l0).
    { destruct (kept_children node t) as [l0|].
      - apply adopt_Some in Ha. destruct Ha as [l' [-> [_ [_ Hall]]]].
        exists l'. split; eauto.
      - apply adopt_None in Ha. destruct Ha as [_ Hall].
        rewrite (Hall _ _ Hin) in Hpar'. discriminate. }
    destruct Hl0 as [l0 [-> Hjl]].
    destruct (parent_id node) as [p|] eqn:Hp.
    + destruct (N.eq_dec p (id node)) as [->|Hne].
      * destruct (Hpar _ _ eq_refl Hself) as [l [l' [Hc [Hget' [Hincl _]]]]].
        simpl in Hc. inversion Hc. subst l.
        eexists. exists l'. split; [exact Hget'|]. split; auto.
      * exists {| info := node; children := Some l0 |}, l0.
        rewrite Hframe by congruence. auto.
    + exists {| info := node; children := Some l0 |}, l0.
      rewrite Hframe by congruence. auto.
Qed.

Lemma add_parent_child_sync_witness :
  let node := App.item_dict (category_item 10%N None None) 5 in
  exists cn,
    Dict.get 10%N (nodes (fst (add node orphan_sample))) = Some cn
    /\ children cn = Some [1%N].
Proof.
  intros node.
  set (n1 := {| info := App.item_dict (offer_item 1%N (Some 10%N) (Some 100)) 0;
                children := None |}).
  assert (Hadd : add node orphan_sample = (fst (add node orphan_sample), Ok tt))
    by (vm_compute; reflexivity).
  assert (Hty : type node = CATEGORY) by reflexivity.
  assert (Htr : truthy (price node) = false) by reflexivity.
  assert (Hj : Dict.get 1%N (nodes orphan_sample) = Some n1 /\ 1%N <> id node
               \/ 1%N = id node /\ info n1 = node).
  { left. split; [vm_compute; reflexivity | discriminate]. }
  assert (Hp : parent_id (info n1) = Some (id node)) by reflexivity.
  destruct (add_parent_child_sync node orphan_sample _ Hadd) as [_ H].
  destruct (H Hty Htr 1%N n1 Hj Hp) as [cn [l [Hget [Hch _]]]].
  exists cn. split; [exact Hget|].
  vm_compute in Hget. inversion Hget. reflexivity.
Defined.

(** ** Delete *)

Lemma count_occ_remove_first_same x l :
  In x l ->
  count_occ N.eq_dec (remove_first x l) x = pred (count_occ N.eq_dec l x).
Proof.
  induction l as [|y l IH]; simpl; [tauto|].
  destruct (N.eqb x y) eqn:E.
  - apply N.eqb_eq in E. subst y. intros _.
    destruct (N.eq_dec x x); [reflexivity | congruence].
  - apply N.eqb_neq in E. intros [H|H]; [congruence|]. simpl.
    destruct (N.eq_dec y x); [congruence | auto].
Qed.

Lemma count_occ_remove_first_other x y l :
  y <> x ->
  count_occ N.eq_dec (remove_first x l) y = count_occ N.eq_dec l y.
Proof.
  intros Hne. induction l as [|z l IH]; simpl; auto.
  destruct (N.eqb x z) eqn:E.
  - apply N.eqb_eq in E. subst z.
    destruct (N.eq_dec x y); [congruence | reflexivity].
  - simpl. destruct (N.eq_dec z y); auto.
Qed.

(** In a tree where the parent of [i], if it is in the tree, lists [i]
    (invariant I2 at [i]), deleting a present [i] completes, hands back the
    node stored at [i], removes exactly the entry of [i] and takes one
    occurrence of [i], and nothing else, out of its parent's children;
    every other entry stays in the node dict with its own data (and, the
    parent's children apart, unchanged), descendants of a removed CATEGORY
    included, and the ledger is untouched. Deleting an absent id returns
    [None] and changes nothing. *)
Theorem delete_node_frame i t :
  NoDup (Dict.keys (nodes t)) ->
  listed_by_parent t i ->
  match Dict.get i (nodes t) with
  | None => delete_node_by_id i t = (t, Ok None)
  | Some node =>
      exists t' removed,
        delete_node_by_id i t = (t', Ok (Some removed))
        /\ info removed = info node
        /\ (parent_id (info node) <> Some i -> removed = node)
        /\ Dict.get i (nodes t') = None
        /\ price_by_id t' = price_by_id t
        /\ (forall j, Dict.get j (nodes t) = None -> Dict.get j (nodes t') = None)
        /\ (forall j n, j <> i -> Dict.get j (nodes t) = Some n ->
              exists n',
                Dict.get j (nodes t') = Some n'
                /\ info n' = info n
                /\ (parent_id (info node) <> Some j -> n' = n)
                /\ (parent_id (info node) = Some j ->
                    exists l l',
                      children n = Some l
                      /\ children n' = Some l'
                      /\ l' = remove_first i l
                      /\ count_occ N.eq_dec l' i = pred (count_occ N.eq_dec l i)
                      /\ forall x, x <> i ->
                           count_occ N.eq_dec l' x = count_occ N.eq_dec l x))
  end.
Proof.
  intros Hnd HI2. unfold delete_node_by_id.
  destruct (Dict.get i (nodes t)) as [node|] eqn:Hi; [|reflexivity].
  assert (Hplain :
    exists t' removed,
      (with_nodes t (Dict.del i (nodes t)), Ok (Some node))
      = (t', Ok (Some removed))
      /\ info removed = info node
      /\ (parent_id (info node) <> Some i -> removed = node)
      /\ Dict.get i (nodes t') = None
      /\ price_by_id t' = price_by_id t
      /\ (forall j, Dict.get j (nodes t) = None -> Dict.get j (nodes t') = None)
      /\ (forall j n, j <> i -> Dict.get j (nodes t) = Some n ->
            exists n', Dict.get j (nodes t') = Some n' /\ info n' = info n
              /\ (parent_id (info node) <> Some j -> n' = n)
              /\ (Dict.get j (nodes t) = None -> False) )).
  { exists (with_nodes t (Dict.del i (nodes t))), node. simpl.
    repeat split; auto.
    - now apply get_del_same.
    - intros j Hj. destruct (N.eq_dec j i) as [->|Hne].
      + now apply get_del_same.
      + now rewrite get_del_other.
    - intros j n Hne Hj. exists n. rewrite get_del_other; auto.
      repeat split; auto. congruence. }
  destruct (parent_id (info node)) as [p|] eqn:Hp.
  2:{ destruct Hplain as [t' [r [E [H1 [H2 [H3 [H4 [H5 H6]]]]]]]].
      exists t', r. repeat split; auto.
      intros j n Hne Hj. destruct (H6 j n Hne Hj) as [n' [G1 [G2 [G3 _]]]].
      exists n'. repeat split; auto. discriminate. }
  destruct (Dict.get p (nodes t)) as [pn|] eqn:Hpn.
  2:{ destruct Hplain as [t' [r [E [H1 [H2 [H3 [H4 [H5 H6]]]]]]]].
      exists t', r. repeat split; auto.
      intros j n Hne Hj. destruct (H6 j n Hne Hj) as [n' [G1 [G2 [G3 _]]]].
      exists n'. repeat split; auto. intros E'. inversion E'. subst. congruence. }
  clear Hplain.
  destruct (HI2 node p pn Hi Hp Hpn) as [l [Hl Hin]].
  rewrite Hl. apply mem_id_In in Hin. rewrite Hin.
  set (ns := Dict.set p (with_children pn (Some (remove_first i l))) (nodes t)).
  assert (Hnd' : NoDup (Dict.keys ns)) by now apply NoDup_keys_set.
  assert (Hr : exists removed, Dict.get i ns = Some removed
                 /\ info removed = info node
                 /\ (Some p <> Some i -> removed = node)).
  { destruct (N.eq_dec i p) as [->|Hne].
    - exists (with_children pn (Some (remove_first p l))). unfold ns.
      rewrite get_set_same. rewrite Hpn in Hi. inversion Hi. subst.
      repeat split; auto. congruence.
    - exists node. unfold ns. rewrite get_set_other; auto. }
  destruct Hr as [removed [Hr [Hinfo Hsame]]].
  exists (with_nodes t (Dict.del i ns)), removed. rewrite Hr. simpl.
  repeat split; auto.
  - now apply get_del_same.
  - intros j Hj. destruct (N.eq_dec j i) as [->|Hne].
    + now apply get_del_same.
    + rewrite get_del_other; auto. unfold ns. rewrite get_set_other; auto.
      congruence.
  - intros j n Hne Hj. rewrite get_del_other; auto. unfold ns.
    destruct (N.eq_dec j p) as [->|Hjp].
    + rewrite get_set_same. rewrite Hpn in Hj. inversion Hj. subst n.
      eexists. repeat split; auto.
      * congruence.
      * intros _. exists l, (remove_first i l). repeat split; auto.
        -- apply count_occ_remove_first_same. now apply mem_id_In.
        -- intros x Hx. now apply count_occ_remove_first_other.
    + rewrite get_set_other; auto. exists n. repeat split; auto.
      intros E'. inversion E'. congruence.
Qed.

Lemma delete_node_frame_witness :
  exists t' n' l',
    fst (delete_node_by_id 1%N shelf_sample) = t'
    /\ Dict.get 1%N (nodes t') = None
    /\ Dict.get 10%N (nodes t') = Some n'
    /\ children n' = Some l'
    /\ count_occ N.eq_dec l' 1%N = 0%nat.
Proof.
  assert (Hnd : NoDup (Dict.keys (nodes shelf_sample))).
  { vm_compute. repeat constructor; simpl; intuition discriminate. }
  assert (HI2 : listed_by_parent shelf_sample 1%N).
  { intros node p pn Hn Hp Hpn. vm_compute in Hn. inversion Hn. subst node.
    simpl in Hp. inversion Hp. subst p.
    vm_compute in Hpn. inversion Hpn. subst pn.
    exists [1%N]. split; [reflexivity | now left]. }
  pose proof (delete_node_frame 1%N shelf_sample Hnd HI2) as H.
  change (Dict.get 1%N (nodes shelf_sample))
    with (Some {| info := App.item_dict (offer_item 1%N (Some 10%N) (Some 100)) 0;
                  children := None |}) in H.
  destruct H as [t' [removed [Hrun [_ [_ [Hgone [_ [_ Hothers]]]]]]]].
  destruct (Hothers 10%N
              {| info := App.item_dict (category_item 10%N None None) 0;
                 children := Some [1%N] |}) as [n' [Hn' [_ [_ Hpar]]]].
  - discriminate.
  - vm_compute. reflexivity.
  - destruct (Hpar eq_refl) as [l [l' [Hl [Hl' [_ [Hcount _]]]]]].
    exists t', n', l'. split; [now rewrite Hrun|]. split; [exact Hgone|].
    split; [exact Hn'|]. split; [exact Hl'|].
    simpl in Hl. inversion Hl. subst l. exact Hcount.
Defined.

(** ** Bulk upsert *)

Lemma link_parent_ledger i p t :
  price_by_id (fst (link_parent i p t)) = price_by_id t.
Proof.
  unfold link_parent. destruct p as [pid|]; auto.
  destruct (Dict.get pid (nodes t)) as [pn|]; auto.
  destruct (children pn) as [l|]; auto.
  now destruct (mem_id i l).
Qed.

(** The ledger after [add], whatever its outcome: one observation more when
    the price counts as true, the same ledger otherwise. *)
Lemma add_ledger node t :
  price_by_id (fst (add node t))
  = match price node with
    | Some p =>
        if p =? 0 then price_by_id t
        else price_by_id (add_price (id node) (date node) p t)
    | None => price_by_id t
    end.
Proof.
  unfold add. destruct (price node) as [p|] eqn:Hp; simpl.
  - destruct (p =? 0); simpl.
    + destruct (is_category (type node)).
      * destruct (adopt _ _ _); simpl; auto. now rewrite link_parent_ledger.
      * now rewrite link_parent_ledger.
    + rewrite link_parent_ledger. unfold add_price. simpl.
      now destruct (Dict.get (id node) (price_by_id t)).
  - destruct (is_category (type node)).
    + destruct (adopt _ _ _); simpl; auto. now rewrite link_parent_ledger.
    + now rewrite link_parent_ledger.
Qed.

Lemma add_price_keeps i d p t j h :
  Dict.get j (price_by_id t) = Some h ->
  exists h', Dict.get j (price_by_id (add_price i d p t)) = Some h' /\ incl h h'.
Proof.
  intros Hj. unfold add_price. destruct (N.eq_dec j i) as [->|Hne].
  - rewrite Hj. simpl. rewrite get_set_same. eexists. split; eauto.
    intros x Hx. apply in_or_app. now left.
  - destruct (Dict.get i (price_by_id t)); simpl; rewrite get_set_other; auto;
      exists h; auto using incl_refl.
Qed.

Lemma add_price_records i d p t :
  exists h, Dict.get i (price_by_id (add_price i d p t)) = Some h /\ In (d, p) h.
Proof.
  unfold add_price. destruct (Dict.get i (price_by_id t)) as [h|]; simpl;
    rewrite get_set_same; eexists; split; eauto.
  - apply in_or_app. right. now left.
  - now left.
Qed.

Lemma add_keeps_ledger node t j h :
  Dict.get j (price_by_id t) = Some h ->
  exists h', Dict.get j (price_by_id (fst (add node t))) = Some h' /\ incl h h'.
Proof.
  intros Hj. rewrite add_ledger.
  destruct (price node) as [p|]; [destruct (p =? 0)|].
  all: try (exists h; auto using incl_refl; fail).
  now apply add_price_keeps.
Qed.

Lemma add_Ok_keeps_nodes node t t' :
  add node t = (t', Ok tt) ->
  (exists n, Dict.get (id node) (nodes t') = Some n /\ info n = node)
  /\ forall j n, Dict.get j (nodes t) = Some n ->
                 exists n', Dict.get j (nodes t') = Some n'.
Proof.
  intros Hadd.
  destruct (add_Ok _ _ _ Hadd) as [t2 [ch [Hlink [Hother [Hself _]]]]].
  destruct (link_parent_Ok _ _ _ _ Hlink) as [_ [Hframe [_ Hpar]]].
  assert (Hkeep : forall j n2, Dict.get j (nodes t2) = Some n2 ->
            exists n', Dict.get j (nodes t') = Some n' /\ info n' = info n2).
  { intros j n2 Hj. destruct (parent_id node) as [p|] eqn:Hp.
    - destruct (N.eq_dec p j) as [->|Hne].
      + destruct (Hpar j n2 eq_refl Hj) as [l [l' [_ [Hg _]]]]. eauto.
      + exists n2. rewrite Hframe; auto. congruence.
    - exists n2. rewrite Hframe; auto. discriminate. }
  split.
  - destruct (Hkeep _ _ Hself) as [n' [Hn' Hi]]. eauto.
  - intros j n Hj. destruct (N.eq_dec j (id node)) as [->|Hne].
    + destruct (Hkeep _ _ Hself) as [n' [Hn' _]]. eauto.
    + rewrite <- Hother in Hj by auto.
      destruct (Hkeep _ _ Hj) as [n' [Hn' _]]. eauto.
Qed.


Lemma load_items_loop_Ok pre d t t1 :
  App.load_items_loop pre d t = (t1, Ok tt) ->
  (forall x, In x pre ->
     is_offer (App.item_type x) && App.is_none (App.item_price x) = false)
  /\ (forall j n, Dict.get j (nodes t) = Some n ->
        exists n', Dict.get j (nodes t1) = Some n')
  /\ (forall j h, Dict.get j (price_by_id t) = Some h ->
        exists h', Dict.get j (price_by_id t1) = Some h' /\ incl h h')
  /\ (forall x, In x pre -> exists n, Dict.get (App.item_id x) (nodes t1) = Some n)
  /\ (forall x p, In x pre -> App.item_price x = Some p -> p <> 0 ->
        exists h, Dict.get (App.item_id x) (price_by_id t1) = Some h
                  /\ In (d, p) h).
Proof.
  revert t. induction pre as [|x pre IH]; intros t; simpl.
  - intros H. inversion H. subst. repeat split; eauto using incl_refl; tauto.
  - destruct (is_offer (App.item_type x) && App.is_none (App.item_price x)) eqn:V;
      [discriminate|].
    destruct (add (App.item_dict x d) t) as [t' [[]|e]] eqn:Hadd; [|discriminate].
    intros Hrest.
    destruct (IH _ Hrest) as [H1 [H2 [H3 [H4 H5]]]].
    destruct (add_Ok_keeps_nodes _ _ _ Hadd) as [[nx [Hnx _]] Hkeep].
    split; [intros y [<-|Hy]; auto|].
    split.
    { intros j n Hj. destruct (Hkeep j n Hj) as [n' Hn']. eauto. }
    split.
    { intros j h Hj.
      destruct (add_keeps_ledger (App.item_dict x d) t j h Hj) as [h' [Hh' Hi]].
      rewrite Hadd in Hh'. simpl in Hh'.
      destruct (H3 j h' Hh') as [h'' [Hh'' Hi']]. exists h''. split; auto.
      eapply incl_tran; eauto. }
    split.
    { intros y [<-|Hy]; [eauto | auto]. }
    intros y p [<-|Hy] Hp Hnz; [|eauto].
    pose proof (add_ledger (App.item_dict x d) t) as Hl.
    rewrite Hadd in Hl. simpl in Hl. rewrite Hp in Hl.
    apply Z.eqb_neq in Hnz. rewrite Hnz in Hl.
    destruct (add_price_records (App.item_id x) d p t) as [h [Hh Hin]].
    rewrite <- Hl in Hh.
    destruct (H3 _ _ Hh) as [h' [Hh' Hi]]. exists h'. split; auto.
Qed.



(** ** Upsert under an offer *)

Lemma adopt_raises i items ch e : adopt i items ch = Raise e -> e = TypeError.
Proof.
  revert ch. induction items as [|[j n] items IH]; intros ch; simpl.
  - discriminate.
  - destruct (parent_is i n); [|apply IH].
    destruct ch as [l|]; [|intros H; now inversion H].
    destruct (mem_id j l); apply IH.
Qed.

Lemma link_parent_sentinel i p pn t :
  Dict.get p (nodes t) = Some pn ->
  children pn = None ->
  link_parent i (Some p) t = (t, Raise TypeError).
Proof. intros Hp Hc. unfold link_parent. now rewrite Hp, Hc. Qed.

Lemma lone_offer_shape : sentinel_on_offers lone_offer.
Proof.
  intros i n. vm_compute.
  destruct i as [|[?|?|]]; try discriminate.
  destruct p; try discriminate.
  intros H. inversion H. simpl. split; reflexivity.
Qed.

(** C9. Upsert is partial. In a tree that keeps the [None] sentinel on
    offers (invariant I1), upserting a node whose [parentId] names an OFFER
    of the tree raises a type error; hence an upsert that completes has no
    [parentId], or one that names no node of the tree, or one that names a
    CATEGORY. Such a failing input exists. *)
Theorem add_partial node t :
  sentinel_on_offers t ->
  (forall p pn,
     parent_id node = Some p ->
     Dict.get p (nodes t) = Some pn ->
     type (info pn) = OFFER ->
     children pn = None /\ snd (add node t) = Raise TypeError)
  /\ (snd (add node t) = Ok tt ->
      parent_id node = None
      \/ exists p,
           parent_id node = Some p
           /\ (Dict.get p (nodes t) = None
               \/ exists pn, Dict.get p (nodes t) = Some pn
                             /\ type (info pn) = CATEGORY))
  /\ (exists node0 t0,
        sentinel_on_offers t0 /\ snd (add node0 t0) = Raise TypeError).
Proof.
  intros HI1.
  assert (Hfail : forall p pn,
     parent_id node = Some p ->
     Dict.get p (nodes t) = Some pn ->
     type (info pn) = OFFER ->
     children pn = None /\ snd (add node t) = Raise TypeError).
  { intros p pn Hp Hget Hty.
    assert (Hc : children pn = None) by now apply (HI1 p pn Hget).
    split; auto.
    unfold add. rewrite Hp.
    set (i := id node). set (kept := kept_children node t).
    set (t1 := with_nodes t (Dict.set i {| info := node; children := kept |} (nodes t))).
    assert (Hp1 : exists pn1, Dict.get p (nodes t1) = Some pn1 /\ children pn1 = None).
    { destruct (N.eq_dec p i) as [->|Hne].
      - eexists. split; [apply get_set_same|]. simpl.
        unfold kept, kept_children. fold i. now rewrite Hget.
      - exists pn. split; auto. simpl. rewrite get_set_other; auto. }
    destruct Hp1 as [pn1 [Hp1 Hc1]].
    destruct (truthy (price node)).
    - destruct (price node) as [pr|].
      + erewrite link_parent_sentinel; eauto. now rewrite nodes_add_price.
      + erewrite link_parent_sentinel; eauto.
    - destruct (is_category (type node)).
      + destruct (adopt i (nodes t1) kept) as [ch|e] eqn:Ha.
        * destruct (N.eq_dec p i) as [->|Hne].
          -- exfalso.
             assert (Hk : kept = None).
             { unfold kept, kept_children. fold i. now rewrite Hget. }
             rewrite Hk in Ha. apply adopt_None in Ha. destruct Ha as [_ Hall].
             specialize (Hall i {| info := node; children := None |}).
             unfold parent_is in Hall. simpl in Hall. rewrite Hp, N.eqb_refl in Hall.
             assert (true = false); [|discriminate].
             apply Hall. apply get_In. simpl. rewrite <- Hk. apply get_set_same.
          -- erewrite link_parent_sentinel; eauto.
             simpl. rewrite get_set_other; eauto.
        * simpl. now rewrite (adopt_raises _ _ _ _ Ha).
      + erewrite link_parent_sentinel; eauto. }
  split; [exact Hfail|]. split.
  - intros Hok. destruct (parent_id node) as [p|] eqn:Hp; [right | now left].
    exists p. split; auto.
    destruct (Dict.get p (nodes t)) as [pn|] eqn:Hget; [right | now left].
    exists pn. split; auto.
    destruct (type (info pn)) eqn:Hty; auto.
    destruct (Hfail p pn eq_refl Hget Hty) as [_ Hr]. congruence.
  - exists (App.item_dict (offer_item 1%N (Some 2%N) (Some 10)) 1), lone_offer.
    split; [exact lone_offer_shape | reflexivity].
Qed.

Lemma add_partial_witness :
  snd (add (App.item_dict (offer_item 1%N (Some 2%N) (Some 10)) 1) lone_offer)
  = Raise TypeError.
Proof.
  exact (proj2 (proj1 (add_partial
                  (App.item_dict (offer_item 1%N (Some 2%N) (Some 10)) 1)
                  lone_offer lone_offer_shape)
                  2%N
                  {| info := App.item_dict (offer_item 2%N None (Some 50)) 0;
                     children := None |}
                  eq_refl eq_refl eq_refl)).
Defined.

(** ** A price of zero *)

Lemma link_parent_raises i p t e :
  snd (link_parent i p t) = Raise e -> e = TypeError.
Proof.
  unfold link_parent. destruct p as [pid|]; [|discriminate].
  destruct (Dict.get pid (nodes t)) as [pn|]; [|discriminate].
  destruct (children pn) as [l|]; [|intros H; now inversion H].
  destruct (mem_id i l); discriminate.
Qed.

Lemma add_raises node t e : snd (add node t) = Raise e -> e = TypeError.
Proof.
  unfold add. destruct (truthy (price node)).
  - destruct (price node); apply link_parent_raises.
  - destruct (is_category (type node)).
    + destruct (adopt _ _ _) eqn:Ha.
      * apply link_parent_raises.
      * simpl. intros H. inversion H. subst. eapply adopt_raises; eauto.
    + apply link_parent_raises.
Qed.

Lemma link_parent_info i p t k n :
  Dict.get k (nodes t) = Some n ->
  exists n', Dict.get k (nodes (fst (link_parent i p t))) = Some n'
             /\ info n' = info n.
Proof.
  intros Hk. unfold link_parent. destruct p as [pid|]; eauto.
  destruct (Dict.get pid (nodes t)) as [pn|] eqn:Hp; eauto.
  destruct (children pn) as [l|]; eauto.
  destruct (mem_id i l); eauto. simpl.
  destruct (N.eq_dec k pid) as [->|Hne].
  - rewrite get_set_same. eexists. split; eauto. simpl. congruence.
  - rewrite get_set_other; eauto.
Qed.

(** [add] stores the node under its id before anything can go wrong. *)
Lemma add_writes node t :
  exists n, Dict.get (id node) (nodes (fst (add node t))) = Some n
            /\ info n = node.
Proof.
  unfold add.
  set (i := id node). set (kept := kept_children node t).
  set (t1 := with_nodes t (Dict.set i {| info := node; children := kept |} (nodes t))).
  assert (H1 : Dict.get i (nodes t1) = Some {| info := node; children := kept |})
    by apply get_set_same.
  assert (Hlink : forall t2 c,
            Dict.get i (nodes t2) = Some {| info := node; children := c |} ->
            exists n, Dict.get i (nodes (fst (link_parent i (parent_id node) t2)))
                      = Some n /\ info n = node).
  { intros t2 c H2.
    destruct (link_parent_info i (parent_id node) t2 i _ H2) as [n' [Hn' Hi]].
    exists n'. split; auto. }
  destruct (truthy (price node)).
  - destruct (price node) as [p|].
    + apply (Hlink _ kept). now rewrite nodes_add_price.
    + now apply (Hlink _ kept).
  - destruct (is_category (type node)).
    + destruct (adopt i (nodes t1) kept) as [ch|e]; simpl.
      * apply (Hlink _ ch). simpl. apply get_set_same.
      * eauto.
    + now apply (Hlink _ kept).
Qed.

(** C10. The ledger is fed by the truth value of the price. An OFFER with
    price 0 is not rejected by the bulk upsert's validation (the price is
    there) and is stored in the tree, yet the ledger is left as it was; when
    the offer had no history before, the statistics query on it raises a
    lookup error, at the tree method always and at the handler for every
    pair of bounds that is not reversed. *)
Theorem zero_price_offer_has_no_history item d t fuel s e :
  App.item_type item = OFFER ->
  App.item_price item = Some 0 ->
  Dict.get (App.item_id item) (price_by_id t) = None ->
  let after := App.load_items [item] d t in
  is_offer (App.item_type item) && App.is_none (App.item_price item) = false
  /\ snd after <> Raise ValidationFailed
  /\ truthy (App.item_price item) = false
  /\ price_by_id (fst after) = price_by_id t
  /\ (exists n, Dict.get (App.item_id item) (nodes (fst after)) = Some n
                /\ info n = App.item_dict item d)
  /\ snd (get_statistic_by_id fuel (App.item_id item) s e (fst after))
     = Raise KeyError
  /\ ((forall x y, s = Some x -> e = Some y -> x <= y) ->
      snd (App.get_statistic_by_id fuel (App.item_id item) s e (fst after))
      = Raise KeyError).
Proof.
  intros Hty Hp Hnone after.
  assert (Hstate : fst after = fst (add (App.item_dict item d) t)
                   /\ snd after <> Raise ValidationFailed).
  { unfold after, App.load_items. simpl. rewrite Hty, Hp. simpl.
    destruct (add (App.item_dict item d) t) as [t' [[]|ex]] eqn:Hadd; simpl.
    - split; auto. discriminate.
    - split; auto. intros E. inversion E. subst ex.
      assert (Hex : snd (add (App.item_dict item d) t) = Raise ValidationFailed)
        by now rewrite Hadd.
      apply add_raises in Hex. discriminate. }
  destruct Hstate as [Hfst Hnv].
  assert (Hledger : price_by_id (fst after) = price_by_id t).
  { rewrite Hfst, add_ledger. simpl. now rewrite Hp. }
  destruct (add_writes (App.item_dict item d) t) as [n [Hn Hinfo]].
  rewrite <- Hfst in Hn. simpl in Hn.
  assert (Hraise : snd (get_statistic_by_id fuel (App.item_id item) s e (fst after))
                   = Raise KeyError).
  { unfold get_statistic_by_id. rewrite Hn, Hinfo. simpl. rewrite Hty. simpl.
    now rewrite Hledger, Hnone. }
  split; [now rewrite Hty, Hp|].
  split; auto. split; [now rewrite Hp|]. split; auto.
  split; [eauto|]. split; auto.
  intros Hrange. unfold App.get_statistic_by_id.
  assert (Hbad : match e, s with Some e0, Some s0 => e0 <? s0 | _, _ => false end
                 = false).
  { destruct e as [e0|], s as [s0|]; auto. apply Z.ltb_ge. now apply Hrange. }
  rewrite Hbad. unfold Dict.mem. rewrite Hn. simpl. exact Hraise.
Qed.

Lemma zero_price_offer_has_no_history_witness :
  App.load_items [offer_item 1%N None (Some 0)] 7 init
  = ({| nodes := [(1%N, {| info := App.item_dict (offer_item 1%N None (Some 0)) 7;
                           children := None |})];
        price_by_id := [] |},
     Ok {| App.code := 200;
           App.message := "The insertion or update was successful" |})
  /\ snd (App.get_statistic_by_id 5 1%N None None
            (imported [offer_item 1%N None (Some 0)] 7 init))
     = Raise KeyError.
Proof.
  split; [reflexivity|].
  refine (proj2 (proj2 (proj2 (proj2 (proj2 (proj2
            (zero_price_offer_has_no_history (offer_item 1%N None (Some 0)) 7
               init 5 None None eq_refl eq_refl eq_refl)))))) _).
  intros x y H. discriminate H.
Defined.

(** ** Deleting through the handler *)

(** An identifier is never one of the field names that key a node dict. *)
Lemma in_node_uuid i n : App.in_node (App.KUUID i) n = false.
Proof. reflexivity. Qed.

Lemma delete_node_ledger i t :
  price_by_id (fst (delete_node_by_id i t)) = price_by_id t.
Proof.
  unfold delete_node_by_id.
  destruct (Dict.get i (nodes t)) as [node|]; auto.
  destruct (parent_id (info node)) as [p|]; auto.
  destruct (Dict.get p (nodes t)) as [pn|]; auto.
  destruct (children pn) as [l|]; auto.
  now destruct (mem_id i l).
Qed.

(** The handler never reaches [delete_price_by_id]: whatever it is given,
    it leaves the ledger as it found it. *)
Lemma delete_item_ledger deleted i t :
  price_by_id (fst (App.delete_item_by_id deleted i t)) = price_by_id t.
Proof.
  unfold App.delete_item_by_id. destruct deleted; simpl; auto.
  destruct (Dict.get i (nodes t)) as [node|]; auto.
  pose proof (delete_node_ledger i t) as H.
  destruct (delete_node_by_id i t) as [t2 [[r|]|e]]; exact H.
Qed.

(** C1, on the code. Offer [1], priced 100, is deleted through the handler:
    the deletion succeeds and the node leaves the tree, so statistics
    answer NotFound; but the offer's history is still in the ledger, the
    sales query raises a lookup error on it, and an offer imported anew
    under the same id shows the old observation in its statistics. *)
Theorem delete_item_leaves_history :
  let r := App.delete_item_by_id true 1%N one_offer in
  snd r = Ok (Some {| App.code := 200; App.message := "OK" |})
  /\ Dict.get 1%N (nodes (fst r)) = None
  /\ Dict.get 1%N (price_by_id (fst r)) = Some [(0, 100)]
  /\ snd (App.get_statistic_by_id 5 1%N None None (fst r)) = Raise NotFound
  /\ snd (App.get_sales 0 (fst r)) = Raise KeyError
  /\ exists items,
       snd (App.get_statistic_by_id 5 1%N None None
              (imported [offer_item 1%N None (Some 70)] 9 (fst r)))
       = Ok items
       /\ map shown items = [(0, Some 100); (9, Some 70)].
Proof.
  vm_compute. repeat split; try reflexivity.
  eexists. split; reflexivity.
Qed.

(** ** The price shown for a category *)

(** Whenever the offers under a category count to zero, the view of the
    category is not produced: the division by the count is not guarded. *)
Lemma get_nodes_zero_count fuel t node cs a :
  children node = Some cs ->
  calculate_price_for_category fuel t (id (info node)) = Ok (a, 0) ->
  exists e, get_nodes (S fuel) t node = Raise e.
Proof.
  intros Hc Hp. simpl. rewrite Hc, Hp.
  destruct (map_result _ (sorted cs)) as [views|e]; simpl; eauto.
Qed.

(** When the view of a category is produced, its price is the floor of the
    subtree's sum of offer prices over their count. *)
Lemma get_nodes_category_price fuel t node cs v :
  children node = Some cs ->
  get_nodes (S fuel) t node = Ok v ->
  exists amount count,
    calculate_price_for_category fuel t (id (info node)) = Ok (amount, count)
    /\ count <> 0
    /\ v_price v = Some (amount / count).
Proof.
  intros Hc. simpl. rewrite Hc.
  destruct (calculate_price_for_category fuel t (id (info node)))
    as [[amount count]|e]; [|discriminate].
  destruct (map_result _ (sorted cs)) as [views|e]; [|discriminate].
  destruct (count =? 0) eqn:E; [discriminate|].
  destruct (calculate_date_for_category fuel t (id (info node))) as [d|e];
    [|discriminate].
  intros H. inversion H. subst v. exists amount, count.
  repeat split; auto. now apply Z.eqb_neq.
Qed.

(** C2, on the code. For a category with two offers priced 100 and 201 both
    readers show 150, the floor of the average. For a category without
    offers the statistics entry has no price, but the view is not returned:
    the handler raises a division by zero. *)
Theorem empty_category_has_no_view :
  (exists v, App.get_nodes_by_id 5 10%N two_offers = Ok v
             /\ v_price v = Some 150)
  /\ (exists u, snd (App.get_statistic_by_id 5 10%N None None two_offers) = Ok [u]
                /\ st_price u = Some 150)
  /\ (exists u, snd (App.get_statistic_by_id 5 10%N None None empty_category)
                = Ok [u]
                /\ st_price u = None)
  /\ calculate_price_for_category 5 empty_category 10%N = Ok (0, 0)
  /\ App.get_nodes_by_id 5 10%N empty_category = Raise ZeroDivisionError.
Proof.
  vm_compute. repeat split; try reflexivity; eexists; split; reflexivity.
Qed.

(** ** Outcomes of the statistics handler *)

Lemma statistic_reversed_bounds fuel i s e t :
  e < s ->
  App.get_statistic_by_id fuel i (Some s) (Some e) t = (t, Raise ValidationFailed).
Proof.
  intros H. unfold App.get_statistic_by_id.
  apply Z.ltb_lt in H. now rewrite H.
Qed.

Lemma statistic_absent_id fuel i (s e : option datetime) t :
  (forall x y, s = Some x -> e = Some y -> x <= y) ->
  Dict.get i (nodes t) = None ->
  App.get_statistic_by_id fuel i s e t = (t, Raise NotFound).
Proof.
  intros Hrange Hi. unfold App.get_statistic_by_id.
  assert (Hbad : match e, s with Some e0, Some s0 => e0 <? s0 | _, _ => false end
                 = false).
  { destruct e as [e0|], s as [s0|]; auto. apply Z.ltb_ge. now apply Hrange. }
  rewrite Hbad. unfold Dict.mem. now rewrite Hi.
Qed.

(** C7, on the code. Offer [1] was imported with price 0: the import
    succeeded and the offer is in the tree, the bounds are absent, and the
    statistics handler ends in neither ValidationFailed nor NotFound nor a
    list: it raises a lookup error. *)
Theorem statistic_of_free_offer_raises :
  snd (App.load_items [offer_item 1%N None (Some 0)] 0 init)
  = Ok {| App.code := 200;
          App.message := "The insertion or update was successful" |}
  /\ Dict.mem 1%N (nodes free_offer) = true
  /\ App.get_statistic_by_id 5 1%N None None free_offer
     = (free_offer, Raise KeyError).
Proof. vm_compute. repeat split; reflexivity. Qed.

(** ** Well-formedness is kept by every operation *)

Lemma init_wf : well_formed init.
Proof. split; simpl; try constructor; intros; discriminate. Qed.

Lemma wf_set_node t k n :
  well_formed t ->
  id (info n) = k ->
  (forall l, children n = Some l -> NoDup l) ->
  well_formed (with_nodes t (Dict.set k n (nodes t))).
Proof.
  intros [H1 H2 H3 H4] Hid Hch. split; simpl; auto.
  - now apply NoDup_keys_set.
  - intros i m. destruct (N.eq_dec i k) as [->|Hne].
    + rewrite get_set_same. intros E. inversion E. now subst.
    + rewrite get_set_other; auto.
  - intros i m l. simpl. destruct (N.eq_dec i k) as [->|Hne].
    + rewrite get_set_same. intros E. inversion E. subst. auto.
    + rewrite get_set_other; auto. apply H4.
Qed.

Lemma wf_add_price i d p t : well_formed t -> well_formed (add_price i d p t).
Proof.
  intros [H1 H2 H3 H4]. unfold add_price.
  destruct (Dict.get i (price_by_id t)); split; simpl; auto;
    now apply NoDup_keys_set.
Qed.

Lemma wf_link_parent i p t :
  well_formed t -> well_formed (fst (link_parent i p t)).
Proof.
  intros Hwf. unfold link_parent. destruct p as [pid|]; auto.
  destruct (Dict.get pid (nodes t)) as [pn|] eqn:Hp; auto.
  destruct (children pn) as [l|] eqn:Hc; auto.
  destruct (mem_id i l) eqn:M; auto. simpl.
  apply wf_set_node; auto.
  - simpl. now apply (wf_ids t Hwf).
  - simpl. intros l' E. inversion E. subst. apply NoDup_snoc.
    + now apply (wf_children t Hwf pid pn).
    + now apply mem_id_false.
Qed.

Lemma adopt_nodup i items ch ch' :
  adopt i items ch = Ok ch' ->
  (forall l, ch = Some l -> NoDup l) ->
  forall l', ch' = Some l' -> NoDup l'.
Proof.
  intros Ha Hch l' E. destruct ch as [l|].
  - apply adopt_Some in Ha. destruct Ha as [l0 [E0 [_ [Hnd _]]]].
    rewrite E0 in E. inversion E. subst. auto.
  - apply adopt_None in Ha. destruct Ha. congruence.
Qed.

Lemma kept_children_nodup node t :
  well_formed t -> forall l, kept_children node t = Some l -> NoDup l.
Proof.
  intros Hwf l. unfold kept_children.
  destruct (Dict.get (id node) (nodes t)) as [old|] eqn:Ho.
  - now apply (wf_children t Hwf (id node) old).
  - destruct (is_category (type node)); [|discriminate].
    intros E. inversion E. constructor.
Qed.

Lemma wf_add node t : well_formed t -> well_formed (fst (add node t)).
Proof.
  intros Hwf. unfold add.
  set (i := id node). set (kept := kept_children node t).
  set (t1 := with_nodes t (Dict.set i {| info := node; children := kept |} (nodes t))).
  assert (Hk : forall l, kept = Some l -> NoDup l) by now apply kept_children_nodup.
  assert (H1 : well_formed t1) by (apply wf_set_node; auto).
  destruct (truthy (price node)).
  - destruct (price node) as [p|]; apply wf_link_parent; auto.
    now apply wf_add_price.
  - destruct (is_category (type node)); [|now apply wf_link_parent].
    destruct (adopt i (nodes t1) kept) as [ch|e] eqn:Ha; auto.
    apply wf_link_parent, wf_set_node; auto. simpl.
    eapply adopt_nodup; eauto.
Qed.

Lemma NoDup_remove_first x l : NoDup l -> NoDup (remove_first x l).
Proof.
  induction 1 as [|y l Hy Hl IH]; simpl; [constructor|].
  destruct (N.eqb x y); auto. constructor; auto.
  intros H. apply Hy. clear -H. induction l as [|z l IH]; simpl in *; auto.
  destruct (N.eqb x z); [now right|]. destruct H; auto.
Qed.

Lemma get_del_Some {V} k j (v : V) d :
  NoDup (Dict.keys d) -> Dict.get j (Dict.del k d) = Some v -> Dict.get j d = Some v.
Proof.
  intros Hnd. destruct (N.eq_dec j k) as [->|Hne].
  - now rewrite get_del_same.
  - now rewrite get_del_other.
Qed.

Lemma wf_del_node t k :
  well_formed t -> well_formed (with_nodes t (Dict.del k (nodes t))).
Proof.
  intros [H1 H2 H3 H4]. split; simpl; auto.
  - now apply NoDup_keys_del.
  - intros i n Hi. apply H3. eapply get_del_Some; eauto.
  - intros i n l Hi. simpl in Hi. apply (H4 i n). eapply get_del_Some; eauto.
Qed.

Lemma wf_delete_node i t :
  well_formed t -> well_formed (fst (delete_node_by_id i t)).
Proof.
  intros Hwf. unfold delete_node_by_id.
  destruct (Dict.get i (nodes t)) as [node|]; auto.
  destruct (parent_id (info node)) as [p|]; [|now apply wf_del_node].
  destruct (Dict.get p (nodes t)) as [pn|] eqn:Hp; [|now apply wf_del_node].
  destruct (children pn) as [l|] eqn:Hc; auto.
  destruct (mem_id i l); auto. simpl.
  apply (wf_del_node
           (with_nodes t (Dict.set p (with_children pn (Some (remove_first i l)))
                            (nodes t)))).
  apply wf_set_node; auto.
  - simpl. now apply (wf_ids t Hwf).
  - simpl. intros l' E. inversion E. apply NoDup_remove_first.
    now apply (wf_children t Hwf p pn).
Qed.

Lemma sales_loop_keys d ns ledger items :
  Dict.keys (fst (sales_loop d ns ledger items)) = Dict.keys ledger.
Proof.
  revert items. induction ledger as [|[i h] ledger IH]; intros items; simpl; auto.
  destruct (first_recent d (sort_desc h)) as [[nd np]|].
  - destruct (Dict.get i ns) as [node|]; simpl; auto.
    specialize (IH (items ++ [sale_unit (info node) nd np])).
    destruct (sales_loop d ns ledger _). simpl in *. now rewrite IH.
  - specialize (IH items). destruct (sales_loop d ns ledger items).
    simpl in *. now rewrite IH.
Qed.

Lemma wf_get_sales d t : well_formed t -> well_formed (fst (get_sales d t)).
Proof.
  intros [H1 H2 H3 H4]. unfold get_sales.
  pose proof (sales_loop_keys d (nodes t) (price_by_id t) []) as Hk.
  destruct (sales_loop d (nodes t) (price_by_id t) []) as [ledger r].
  cbn [fst] in Hk. split; cbn [fst nodes price_by_id].
  - exact H1.
  - exact (eq_ind_r (fun k => NoDup k) H2 Hk).
  - exact H3.
  - exact H4.
Qed.

Lemma wf_get_statistic fuel i s e t :
  well_formed t -> well_formed (fst (get_statistic_by_id fuel i s e t)).
Proof.
  intros Hwf. unfold get_statistic_by_id.
  destruct (Dict.get i (nodes t)) as [node|]; auto.
  destruct (is_offer (type (info node))).
  - destruct (Dict.get i (price_by_id t)) as [h|]; auto.
    destruct Hwf as [H1 H2 H3 H4]. split; simpl; auto.
    now apply NoDup_keys_set.
  - destruct (is_category (type (info node))); auto.
    destruct (calculate_date_for_category fuel t i) as [nd|]; auto.
    destruct (calculate_price_for_category fuel t i) as [[am c]|]; auto.
    destruct (result_date s e nd); auto.
Qed.

Lemma wf_load_items items d t :
  well_formed t -> well_formed (fst (App.load_items items d t)).
Proof.
  unfold App.load_items.
  assert (H : forall t, well_formed t ->
                        well_formed (fst (App.load_items_loop items d t))).
  { induction items as [|x items IH]; intros t0 Hwf; simpl; auto.
    destruct (is_offer (App.item_type x) && App.is_none (App.item_price x)); auto.
    pose proof (wf_add (App.item_dict x d) t0 Hwf) as Ha.
    destruct (add (App.item_dict x d) t0) as [t' [[]|e]]; auto. }
  intros Hwf. specialize (H t Hwf).
  now destruct (App.load_items_loop items d t) as [t' [[]|e]].
Qed.

Lemma wf_delete_item deleted i t :
  well_formed t -> well_formed (fst (App.delete_item_by_id deleted i t)).
Proof.
  intros Hwf. unfold App.delete_item_by_id. destruct deleted; simpl; auto.
  destruct (Dict.get i (nodes t)) as [node|]; auto.
  pose proof (wf_delete_node i t Hwf) as H.
  destruct (delete_node_by_id i t) as [t2 [[r|]|e]]; exact H.
Qed.

(** * Further properties of the code *)

(** ** What [add] touches *)

Lemma link_parent_frame_any i p t k :
  p <> Some k ->
  Dict.get k (nodes (fst (link_parent i p t))) = Dict.get k (nodes t).
Proof.
  intros Hp. unfold link_parent. destruct p as [pid|]; auto.
  destruct (Dict.get pid (nodes t)) as [pn|]; auto.
  destruct (children pn) as [l|]; auto.
  destruct (mem_id i l); auto. simpl.
  apply get_set_other. congruence.
Qed.

Lemma link_parent_entry i p t j :
  match Dict.get j (nodes t) with
  | None => Dict.get j (nodes (fst (link_parent i p t))) = None
  | Some n =>
      exists n',
        Dict.get j (nodes (fst (link_parent i p t))) = Some n'
        /\ info n' = info n
        /\ (p <> Some j -> n' = n)
        /\ (children n' = children n
            \/ exists l, p = Some j /\ children n = Some l /\ ~ In i l
                         /\ children n' = Some (l ++ [i]))
  end.
Proof.
  assert (Hsame : match Dict.get j (nodes t) with
                  | None => Dict.get j (nodes t) = None
                  | Some n =>
                      exists n',
                        Dict.get j (nodes t) = Some n'
                        /\ info n' = info n
                        /\ (p <> Some j -> n' = n)
                        /\ (children n' = children n
                            \/ exists l, p = Some j /\ children n = Some l
                                         /\ ~ In i l
                                         /\ children n' = Some (l ++ [i]))
                  end).
  { destruct (Dict.get j (nodes t)) as [n|]; auto. exists n. auto. }
  unfold link_parent. destruct p as [pid|]; auto.
  destruct (Dict.get pid (nodes t)) as [pn|] eqn:Hp; auto.
  destruct (children pn) as [l|] eqn:Hc; auto.
  destruct (mem_id i l) eqn:M; auto. simpl. clear Hsame.
  destruct (N.eq_dec j pid) as [->|Hne].
  - rewrite Hp, get_set_same. eexists. split; [reflexivity|]. simpl.
    split; auto. split; [congruence|]. right. exists l.
    repeat split; auto. now apply mem_id_false.
  - rewrite get_set_other by auto.
    destruct (Dict.get j (nodes t)) as [n|]; auto. exists n.
    repeat split; auto.
Qed.

(** [add] rewrites the entry of the node and, at most, the children of the
    parent it names, whether it completes or raises. Every other id that
    was not in the tree is still not in it, and every other entry is the
    same afterwards, except that the entry of the named parent may have the
    node's id appended to its children: the parent's own data (name, parent,
    type, price, date) stay as they were. *)
Theorem add_frame node t j :
  j <> id node ->
  match Dict.get j (nodes t) with
  | None => Dict.get j (nodes (fst (add node t))) = None
  | Some n =>
      exists n',
        Dict.get j (nodes (fst (add node t))) = Some n'
        /\ info n' = info n
        /\ (parent_id node <> Some j -> n' = n)
        /\ (children n' = children n
            \/ exists l, parent_id node = Some j /\ children n = Some l
                         /\ ~ In (id node) l
                         /\ children n' = Some (l ++ [id node]))
  end.
Proof.
  intros Hj.
  set (P := fun s : MarketTree =>
    match Dict.get j (nodes t) with
    | None => Dict.get j (nodes s) = None
    | Some n =>
        exists n',
          Dict.get j (nodes s) = Some n'
          /\ info n' = info n
          /\ (parent_id node <> Some j -> n' = n)
          /\ (children n' = children n
              \/ exists l, parent_id node = Some j /\ children n = Some l
                           /\ ~ In (id node) l
                           /\ children n' = Some (l ++ [id node]))
    end).
  change (P (fst (add node t))).
  assert (Hlink : forall s, Dict.get j (nodes s) = Dict.get j (nodes t) ->
                            P (fst (link_parent (id node) (parent_id node) s))).
  { intros s Hs. unfold P.
    pose proof (link_parent_entry (id node) (parent_id node) s j) as H.
    rewrite Hs in H. exact H. }
  assert (Hstay : forall s, Dict.get j (nodes s) = Dict.get j (nodes t) -> P s).
  { intros s Hs. unfold P. rewrite Hs.
    destruct (Dict.get j (nodes t)) as [n|]; auto. exists n. auto. }
  unfold add.
  set (i := id node) in *. set (kept := kept_children node t).
  set (t1 := with_nodes t (Dict.set i {| info := node; children := kept |} (nodes t))).
  assert (H1 : Dict.get j (nodes t1) = Dict.get j (nodes t))
    by (apply get_set_other; auto).
  destruct (truthy (price node)).
  - destruct (price node) as [p|]; apply Hlink; auto.
    now rewrite nodes_add_price.
  - destruct (is_category (type node)).
    + destruct (adopt i (nodes t1) kept) as [ch|e]; simpl; [|now apply Hstay].
      apply Hlink. simpl. rewrite get_set_other; auto.
    + now apply Hlink.
Qed.

Lemma add_frame_witness :
  exists n',
    Dict.get 10%N
      (nodes (fst (add (App.item_dict (offer_item 2%N (Some 10%N) (Some 5)) 3)
                     shelf_sample))) = Some n'
    /\ info n' = App.item_dict (category_item 10%N None None) 0
    /\ children n' = Some [1%N; 2%N].
Proof.
  pose proof (add_frame (App.item_dict (offer_item 2%N (Some 10%N) (Some 5)) 3)
                shelf_sample 10%N ltac:(discriminate)) as H.
  change (Dict.get 10%N (nodes shelf_sample))
    with (Some {| info := App.item_dict (category_item 10%N None None) 0;
                  children := Some [1%N] |}) in H.
  destruct H as [n' [Hget [Hinfo _]]].
  exists n'. split; [exact Hget|]. split; [exact Hinfo|].
  vm_compute in Hget. inversion Hget. reflexivity.
Defined.

Lemma keeps_children_refl t : keeps_children t t.
Proof. intros k nk Hk. exists nk. split; auto. intros l Hl. exists l. split; auto using incl_refl. Qed.

Lemma keeps_children_trans t1 t2 t3 :
  keeps_children t1 t2 -> keeps_children t2 t3 -> keeps_children t1 t3.
Proof.
  intros H12 H23 k nk Hk.
  destruct (H12 k nk Hk) as [n2 [Hk2 Hc2]].
  destruct (H23 k n2 Hk2) as [n3 [Hk3 Hc3]].
  exists n3. split; auto. intros l Hl.
  destruct (Hc2 l Hl) as [l2 [Hl2 Hi2]].
  destruct (Hc3 l2 Hl2) as [l3 [Hl3 Hi3]].
  exists l3. split; auto. eapply incl_tran; eauto.
Qed.

Lemma keeps_children_set t k n :
  (forall old l, Dict.get k (nodes t) = Some old -> children old = Some l ->
                 exists l', children n = Some l' /\ incl l l') ->
  keeps_children t (with_nodes t (Dict.set k n (nodes t))).
Proof.
  intros Hold j nj Hj. simpl. destruct (N.eq_dec j k) as [->|Hne].
  - exists n. rewrite get_set_same. split; auto. intros l Hl. eapply Hold; eauto.
  - exists nj. rewrite get_set_other; auto. split; auto.
    intros l Hl. exists l. split; auto using incl_refl.
Qed.

Lemma keeps_children_link_parent i p t :
  keeps_children t (fst (link_parent i p t)).
Proof.
  unfold link_parent. destruct p as [pid|]; [|apply keeps_children_refl].
  destruct (Dict.get pid (nodes t)) as [pn|] eqn:Hp; [|apply keeps_children_refl].
  destruct (children pn) as [l|] eqn:Hc; [|apply keeps_children_refl].
  destruct (mem_id i l); [apply keeps_children_refl|]. simpl.
  apply keeps_children_set. intros old l0 Ho Hl0.
  rewrite Hp in Ho. inversion Ho. subst old. rewrite Hc in Hl0. inversion Hl0. subst l0.
  exists (l ++ [i]). split; auto. intros x Hx. apply in_or_app. now left.
Qed.

(** [add] never takes a node out of the tree and never takes an id out of a
    children list, whether it completes or raises: a rewritten node keeps the
    children it had, and a node that moves to another parent stays listed
    under the old one. *)
Theorem add_keeps_children node t : keeps_children t (fst (add node t)).
Proof.
  unfold add.
  set (i := id node). set (kept := kept_children node t).
  set (t1 := with_nodes t (Dict.set i {| info := node; children := kept |} (nodes t))).
  assert (H1 : keeps_children t t1).
  { apply keeps_children_set. intros old l Ho Hl. exists l. simpl.
    unfold kept, kept_children. fold i. rewrite Ho. split; auto using incl_refl. }
  destruct (truthy (price node)).
  - destruct (price node) as [p|].
    + eapply keeps_children_trans; [exact H1|].
      eapply keeps_children_trans; [|apply keeps_children_link_parent].
      intros k nk Hk. exists nk. rewrite nodes_add_price. split; auto.
      intros l Hl. exists l. split; auto using incl_refl.
    + eapply keeps_children_trans; [exact H1|apply keeps_children_link_parent].
  - destruct (is_category (type node)).
    + destruct (adopt i (nodes t1) kept) as [ch|e] eqn:Ha; simpl; auto.
      eapply keeps_children_trans; [exact H1|].
      eapply keeps_children_trans; [|apply keeps_children_link_parent].
      apply keeps_children_set. intros old l Ho Hl.
      simpl in Ho. rewrite get_set_same in Ho. inversion Ho. subst old.
      simpl in Hl. rewrite Hl in Ha. apply adopt_Some in Ha.
      destruct Ha as [l' [-> [Hi _]]]. exists l'. auto.
    + eapply keeps_children_trans; [exact H1|apply keeps_children_link_parent].
Qed.

(** Whatever the node's kind and whatever the outcome of [add], the ledger
    changes only under the node's id and only for a price that is neither
    absent nor 0: the observation (date, price) is put after the history the
    id had. *)
Theorem add_ledger_lookup node t j :
  Dict.get j (price_by_id (fst (add node t)))
  = match price node with
    | Some p =>
        if negb (p =? 0) && N.eqb j (id node)
        then Some (history j t ++ [(date node, p)])
        else Dict.get j (price_by_id t)
    | None => Dict.get j (price_by_id t)
    end.
Proof.
  rewrite add_ledger. destruct (price node) as [p|]; auto.
  destruct (p =? 0); simpl; auto.
  unfold add_price, history.
  destruct (N.eqb j (id node)) eqn:E.
  - apply N.eqb_eq in E. subst j.
    destruct (Dict.get (id node) (price_by_id t)); simpl; now rewrite get_set_same.
  - apply N.eqb_neq in E.
    destruct (Dict.get (id node) (price_by_id t)); simpl; now rewrite get_set_other.
Qed.

Lemma sentinel_set t k n :
  sentinel_on_offers t ->
  (children n = None <-> type (info n) = OFFER) ->
  sentinel_on_offers (with_nodes t (Dict.set k n (nodes t))).
Proof.
  intros HI1 Hn j nj. simpl. destruct (N.eq_dec j k) as [->|Hne].
  - rewrite get_set_same. intros E. inversion E. now subst.
  - rewrite get_set_other; auto. apply HI1.
Qed.

Lemma sentinel_link_parent i p t :
  sentinel_on_offers t -> sentinel_on_offers (fst (link_parent i p t)).
Proof.
  intros HI1. unfold link_parent. destruct p as [pid|]; auto.
  destruct (Dict.get pid (nodes t)) as [pn|] eqn:Hp; auto.
  destruct (children pn) as [l|] eqn:Hc; auto.
  destruct (mem_id i l); auto. simpl.
  apply sentinel_set; auto. simpl.
  destruct (HI1 pid pn Hp) as [_ H2]. split; [discriminate|].
  intros Hty. specialize (H2 Hty). congruence.
Qed.

(** Invariant I1 (the children slot is [None] exactly on offers) survives
    [add], whatever its outcome, provided the node, if it was in the tree,
    is written with the kind it had; and it survives [delete_node_by_id]. *)
Theorem sentinel_kept node i t :
  sentinel_on_offers t ->
  NoDup (Dict.keys (nodes t)) ->
  (forall old, Dict.get (id node) (nodes t) = Some old ->
               type (info old) = type node) ->
  sentinel_on_offers (fst (add node t))
  /\ sentinel_on_offers (fst (delete_node_by_id i t)).
Proof.
  intros HI1 Hnd Hkind. split.
  - unfold add.
    set (k := id node). set (kept := kept_children node t).
    set (t1 := with_nodes t (Dict.set k {| info := node; children := kept |} (nodes t))).
    assert (Hk : kept = None <-> type node = OFFER).
    { unfold kept, kept_children. fold k.
      destruct (Dict.get k (nodes t)) as [old|] eqn:Ho.
      - rewrite <- (Hkind old Ho). now apply (HI1 k old).
      - destruct (type node); simpl; split; congruence. }
    assert (H1 : sentinel_on_offers t1) by (apply sentinel_set; auto).
    destruct (truthy (price node)).
    + destruct (price node) as [p|]; apply sentinel_link_parent; auto.
      intros j nj. rewrite nodes_add_price. apply H1.
    + destruct (is_category (type node)); [|now apply sentinel_link_parent].
      destruct (adopt k (nodes t1) kept) as [ch|e] eqn:Ha; auto.
      apply sentinel_link_parent, sentinel_set; auto. simpl.
      destruct kept as [l|].
      * apply adopt_Some in Ha. destruct Ha as [l' [-> _]].
        destruct Hk as [_ Hk]. split; [discriminate|].
        intros Hty. specialize (Hk Hty). discriminate.
      * apply adopt_None in Ha. destruct Ha as [-> _]. exact Hk.
  - unfold delete_node_by_id.
    assert (Hdel : forall t0, sentinel_on_offers t0 -> NoDup (Dict.keys (nodes t0)) ->
                     sentinel_on_offers (with_nodes t0 (Dict.del i (nodes t0)))).
    { intros t0 H0 Hnd0 j nj Hj. simpl in Hj. apply (H0 j).
      eapply get_del_Some; eauto. }
    destruct (Dict.get i (nodes t)) as [nd|]; auto.
    destruct (parent_id (info nd)) as [p|]; [|now apply Hdel].
    destruct (Dict.get p (nodes t)) as [pn|] eqn:Hp; [|now apply Hdel].
    destruct (children pn) as [l|] eqn:Hc; auto.
    destruct (mem_id i l); auto. simpl.
    apply (Hdel (with_nodes t (Dict.set p (with_children pn (Some (remove_first i l)))
                                 (nodes t)))).
    + apply sentinel_set; auto. simpl.
      destruct (HI1 p pn Hp) as [_ H2]. split; [discriminate|].
      intros Hty. specialize (H2 Hty). congruence.
    + simpl. now apply NoDup_keys_set.
Qed.

Lemma sentinel_kept_witness :
  sentinel_on_offers
    (fst (add (App.item_dict (offer_item 2%N None (Some 60)) 4) lone_offer))
  /\ sentinel_on_offers (fst (delete_node_by_id 2%N lone_offer)).
Proof.
  apply (sentinel_kept (App.item_dict (offer_item 2%N None (Some 60)) 4) 2%N
           lone_offer lone_offer_shape).
  - vm_compute. repeat constructor; simpl; intuition discriminate.
  - intros old Ho. vm_compute in Ho. inversion Ho. reflexivity.
Defined.

(** ** How [delete_node_by_id] ends *)

(** [delete_node_by_id] ends in one of three ways. It returns [None] for an
    id that is not in the tree. It raises, and then leaves the tree as it
    was, exactly when the node's parent is in the tree and does not list the
    node: [AttributeError] when the parent's children slot is [None],
    [ValueError] when the list lacks the id. Otherwise it returns the node. *)
Theorem delete_node_outcome i t :
  match snd (delete_node_by_id i t) with
  | Ok None => Dict.get i (nodes t) = None /\ fst (delete_node_by_id i t) = t
  | Ok (Some removed) =>
      exists node,
        Dict.get i (nodes t) = Some node
        /\ info removed = info node
        /\ forall p pn, parent_id (info node) = Some p ->
                        Dict.get p (nodes t) = Some pn ->
                        exists l, children pn = Some l /\ In i l
  | Raise e =>
      fst (delete_node_by_id i t) = t
      /\ exists node p pn,
           Dict.get i (nodes t) = Some node
           /\ parent_id (info node) = Some p
           /\ Dict.get p (nodes t) = Some pn
           /\ (children pn = None /\ e = AttributeError
               \/ exists l, children pn = Some l /\ ~ In i l /\ e = ValueError)
  end.
Proof.
  unfold delete_node_by_id.
  destruct (Dict.get i (nodes t)) as [node|] eqn:Hi; simpl; auto.
  destruct (parent_id (info node)) as [p|] eqn:Hp; simpl.
  2:{ exists node. repeat split; auto. intros p0 pn0 E. congruence. }
  destruct (Dict.get p (nodes t)) as [pn|] eqn:Hpn; simpl.
  2:{ exists node. repeat split; auto. intros p0 pn0 E Hp0.
      rewrite Hp in E. inversion E. subst. congruence. }
  destruct (children pn) as [l|] eqn:Hc; simpl.
  2:{ split; auto. exists node, p, pn. repeat split; auto. }
  destruct (mem_id i l) eqn:M; simpl.
  - destruct (N.eq_dec i p) as [->|Hne].
    + rewrite get_set_same. exists node. rewrite Hpn in Hi. inversion Hi. subst pn.
      repeat split; auto.
      intros p0 pn0 E Hp0. rewrite Hp in E. inversion E. subst p0.
      rewrite Hpn in Hp0. inversion Hp0.
      subst pn0. exists l. split; auto. now apply mem_id_In.
    + rewrite get_set_other, Hi by auto. exists node. repeat split; auto.
      intros p0 pn0 E Hp0. rewrite Hp in E. inversion E. subst p0.
      rewrite Hpn in Hp0. inversion Hp0.
      subst pn0. exists l. split; auto. now apply mem_id_In.
  - split; auto. exists node, p, pn. repeat split; auto. right.
    exists l. repeat split; auto. now apply mem_id_false.
Qed.

(** ** Statistics of a category *)

(** For a CATEGORY of the tree whose two aggregates compute, the statistics
    query leaves the tree as it is and returns at most one entry: none when
    the aggregated date is outside the closed interval, else the entry of
    that date whose price is absent when no offer was counted and the floor
    of sum over count otherwise. *)
Theorem get_statistic_category fuel i s e t node node_date amount count :
  Dict.get i (nodes t) = Some node ->
  type (info node) = CATEGORY ->
  calculate_date_for_category fuel t i = Ok node_date ->
  calculate_price_for_category fuel t i = Ok (amount, count) ->
  (in_intervalb s e node_date = true <-> in_interval s e node_date)
  /\ get_statistic_by_id fuel i s e t
     = (t, Ok (if in_intervalb s e node_date
               then [statistic_unit i (info node) node_date
                       (if count =? 0 then None else Some (amount / count))]
               else [])).
Proof.
  intros Hn Hty Hd Hp. split; [apply in_intervalb_spec|].
  unfold get_statistic_by_id. rewrite Hn, Hty. simpl. rewrite Hd, Hp.
  rewrite result_date_interval. now destruct (in_intervalb s e node_date).
Qed.

Lemma get_statistic_category_witness :
  exists u,
    get_statistic_by_id 3 10%N (Some 0) None two_offers = (two_offers, Ok [u])
    /\ st_price u = Some 150.
Proof.
  eexists. split.
  - apply (proj2 (get_statistic_category 3 10%N (Some 0) None two_offers
                    {| info := App.item_dict (category_item 10%N None None) 0;
                       children := Some [1%N; 2%N] |} 0 301 2
                    eq_refl eq_refl eq_refl eq_refl)).
  - reflexivity.
Defined.

(** ** The console view *)

(** [show] never gets past the node it is called on. For an id that is not
    in the tree it raises [KeyError] before printing; otherwise it prints the
    node's own line and then completes only if the node has an empty
    children list: on an offer it raises for iterating [None], and on a node
    with children it raises at the first child, which it subscripts although
    it is an identifier. *)
Theorem show_outcome fuel i level t :
  show (S fuel) i level t
  = match Dict.get i (nodes t) with
    | None => ([], Raise KeyError)
    | Some n =>
        ([{| indent := level; label_name := name (info n); label_id := i |}],
         match children n with
         | Some [] => Ok tt
         | _ => Raise TypeError
         end)
    end.
Proof.
  simpl. destruct (Dict.get i (nodes t)) as [n|]; auto.
  destruct (children n) as [[|c cs]|]; reflexivity.
Qed.

(** ** Aggregates of a category *)

Lemma date_loop_Ok rec ns cs d0 d :
  date_loop rec ns cs d0 = Ok d ->
  d0 <= d
  /\ (forall c, In c cs -> exists cn, Dict.get c ns = Some cn)
  /\ (forall c cn, In c cs -> Dict.get c ns = Some cn ->
        (type (info cn) = OFFER -> date (info cn) <= d)
        /\ (type (info cn) = CATEGORY -> exists dc, rec c = Ok dc /\ dc <= d))
  /\ (d = d0
      \/ exists c cn,
           In c cs /\ Dict.get c ns = Some cn
           /\ (type (info cn) = OFFER /\ d = date (info cn)
               \/ type (info cn) = CATEGORY /\ rec c = Ok d)).
Proof.
  revert d0. induction cs as [|c cs IH]; intros d0; simpl.
  - intros H. inversion H. subst. repeat split; try lia; try tauto.
  - destruct (Dict.get c ns) as [cn|] eqn:Hc; [|discriminate].
    assert (Hstep : forall d1,
      d0 <= d1 ->
      (type (info cn) = OFFER -> date (info cn) <= d1)
      /\ (type (info cn) = CATEGORY -> exists dc, rec c = Ok dc /\ dc <= d1) ->
      (d1 = d0 \/ (type (info cn) = OFFER /\ d1 = date (info cn)
                   \/ type (info cn) = CATEGORY /\ rec c = Ok d1)) ->
      date_loop rec ns cs d1 = Ok d ->
      d0 <= d
      /\ (forall c0, c = c0 \/ In c0 cs -> exists cn0, Dict.get c0 ns = Some cn0)
      /\ (forall c0 cn0, c = c0 \/ In c0 cs -> Dict.get c0 ns = Some cn0 ->
            (type (info cn0) = OFFER -> date (info cn0) <= d)
            /\ (type (info cn0) = CATEGORY -> exists dc, rec c0 = Ok dc /\ dc <= d))
      /\ (d = d0
          \/ exists c0 cn0,
               (c = c0 \/ In c0 cs) /\ Dict.get c0 ns = Some cn0
               /\ (type (info cn0) = OFFER /\ d = date (info cn0)
                   \/ type (info cn0) = CATEGORY /\ rec c0 = Ok d))).
    { intros d1 Hle [Ho Hcat] Hatt Hrun.
      destruct (IH _ Hrun) as [H1 [H2 [H3 H4]]].
      split; [lia|]. split.
      { intros c0 [<-|Hin]; eauto. }
      split.
      { intros c0 cn0 [<-|Hin] Hget.
        - rewrite Hc in Hget. inversion Hget. subst cn0. split.
          + intros Hty. specialize (Ho Hty). lia.
          + intros Hty. destruct (Hcat Hty) as [dc [Hr Hdc]]. exists dc. split; auto. lia.
        - now apply H3. }
      destruct H4 as [->|[c0 [cn0 [Hin [Hget Hatt0]]]]].
      - destruct Hatt as [->|Hatt]; [now left|].
        right. exists c, cn. split; auto.
      - right. exists c0, cn0. split; auto. }
    destruct (type (info cn)) eqn:Hty; simpl.
    + destruct (Z.gtb_spec (date (info cn)) d0) as [Hgt|Hle].
      * apply (Hstep (date (info cn)));
          [lia | split; [intros _; lia | congruence] | right; left; auto].
      * apply (Hstep d0);
          [lia | split; [intros _; lia | congruence] | now left].
    + destruct (rec c) as [new_date|e] eqn:Hr; [|discriminate].
      destruct (Z.gtb_spec new_date d0) as [Hgt|Hle].
      * apply (Hstep new_date);
          [lia
          | split; [congruence | intros _; exists new_date; split; [auto|lia]]
          | right; right; auto].
      * apply (Hstep d0);
          [lia
          | split; [congruence | intros _; exists new_date; split; [auto|lia]]
          | now left].
Qed.

(** When [calculate_date_for_category] returns, its result is the latest
    date among the category itself and the nodes its walk comes across: it
    is not earlier than any of them, and it is the date of one of them. *)
Theorem calculate_date_is_latest fuel t i d :
  calculate_date_for_category fuel t i = Ok d ->
  (exists n, Dict.get i (nodes t) = Some n /\ date (info n) <= d)
  /\ (forall j nj, below t i j -> Dict.get j (nodes t) = Some nj ->
                   date (info nj) <= d)
  /\ ((exists n, Dict.get i (nodes t) = Some n /\ d = date (info n))
      \/ exists j nj, below t i j /\ Dict.get j (nodes t) = Some nj
                      /\ d = date (info nj)).
Proof.
  revert i d. induction fuel as [|fuel IH]; intros i d; simpl; [discriminate|].
  destruct (Dict.get i (nodes t)) as [n|] eqn:Hi; [|discriminate].
  destruct (children n) as [cs|] eqn:Hcs; [|discriminate].
  intros Hrun. apply date_loop_Ok in Hrun.
  destruct Hrun as [Hle [_ [Hall Hatt]]].
  split; [eauto|]. split.
  - intros j nj Hb Hj. inversion Hb as [i0 n0 cs0 j0 Hi0 Hcs0 Hin|
                                      i0 n0 cs0 c cn j0 Hi0 Hcs0 Hin Hc Hty Hbc]; subst.
    + rewrite Hi in Hi0. inversion Hi0. subst n0.
      rewrite Hcs in Hcs0. inversion Hcs0. subst cs0.
      destruct (Hall j nj Hin Hj) as [Ho Hcat].
      destruct (type (info nj)) eqn:Hty; auto.
      destruct (Hcat eq_refl) as [dc [Hr Hdc]].
      destruct (IH _ _ Hr) as [[n' [Hn' Hd']] _].
      rewrite Hj in Hn'. inversion Hn'. subst n'. lia.
    + rewrite Hi in Hi0. inversion Hi0. subst n0.
      rewrite Hcs in Hcs0. inversion Hcs0. subst cs0.
      destruct (Hall c cn Hin Hc) as [_ Hcat].
      destruct (Hcat Hty) as [dc [Hr Hdc]].
      destruct (IH _ _ Hr) as [_ [Hbelow _]].
      specialize (Hbelow j nj Hbc Hj). lia.
  - destruct Hatt as [->|[c [cn [Hin [Hc [[Hty ->]|[Hty Hr]]]]]]].
    + left. eauto.
    + right. exists c, cn. split; auto. eapply below_child; eauto.
    + destruct (IH _ _ Hr) as [_ [_ [[n' [Hn' Hd']]|[j [nj [Hb [Hj Hd']]]]]]].
      * right. exists c, n'. split; auto. eapply below_child; eauto.
      * right. exists j, nj. split; auto. eapply below_deeper; eauto.
Qed.

Lemma calculate_date_is_latest_witness :
  exists n,
    Dict.get 10%N (nodes two_offers) = Some n /\ date (info n) <= 0.
Proof.
  exact (proj1 (calculate_date_is_latest 3 two_offers 10%N 0 eq_refl)).
Defined.

Lemma price_loop_Ok rec ns cs a0 c0 a c :
  (forall x ax cx, rec x = Ok (ax, cx) -> 0 <= cx) ->
  price_loop rec ns cs a0 c0 = Ok (a, c) ->
  c0 <= c
  /\ (forall x, In x cs -> exists cn, Dict.get x ns = Some cn)
  /\ (forall x cn, In x cs -> Dict.get x ns = Some cn ->
        type (info cn) = CATEGORY -> exists ax cx, rec x = Ok (ax, cx))
  /\ (c = c0 <->
      (forall x cn, In x cs -> Dict.get x ns = Some cn ->
                    type (info cn) <> OFFER)
      /\ (forall x cn ax cx, In x cs -> Dict.get x ns = Some cn ->
            type (info cn) = CATEGORY -> rec x = Ok (ax, cx) -> cx = 0)).
Proof.
  intros Hrec. revert a0 c0. induction cs as [|x cs IH]; intros a0 c0; simpl.
  - intros H. inversion H. subst. repeat split; try lia; try tauto.
  - destruct (Dict.get x ns) as [cn|] eqn:Hx; [|discriminate].
    destruct (type (info cn)) eqn:Hty; simpl.
    + destruct (price (info cn)) as [p|]; [|discriminate].
      intros Hrun. destruct (IH _ _ Hrun) as [H1 [H2 [H3 H4]]].
      split; [lia|]. split.
      { intros y [<-|Hy]; eauto. }
      split.
      { intros y cy [<-|Hy] Hget Hcat; [|eauto]. congruence. }
      split; [lia|].
      intros [Hno _]. exfalso. apply (Hno x cn); auto.
    + destruct (rec x) as [[ax cx]|e] eqn:Hr; [|discriminate].
      intros Hrun. destruct (IH _ _ Hrun) as [H1 [H2 [H3 H4]]].
      pose proof (Hrec _ _ _ Hr) as Hcx.
      split; [lia|]. split.
      { intros y [<-|Hy]; eauto. }
      split.
      { intros y cy [<-|Hy] Hget Hcat; eauto. }
      split.
      * intros Hc. assert (cx = 0) by lia. subst cx.
        assert (Hc' : c = c0 + 0) by lia.
        destruct (proj1 H4 Hc') as [Ho Hz]. split.
        -- intros y cy [<-|Hy] Hget; [congruence | eauto].
        -- intros y cy ay zy [<-|Hy] Hget Hcat Hry; [congruence | eauto].
      * intros [Ho Hz].
        assert (cx = 0) by (apply (Hz x cn ax cx); auto). subst cx.
        assert (c = c0 + 0); [|lia].
        apply H4. split.
        -- intros y cy Hy. apply Ho. now right.
        -- intros y cy ay zy Hy. apply Hz. now right.
Qed.

Lemma calculate_count_nonneg fuel t i a c :
  calculate_price_for_category fuel t i = Ok (a, c) -> 0 <= c.
Proof.
  revert i a c. induction fuel as [|fuel IH]; intros i a c; simpl; [discriminate|].
  destruct (Dict.get i (nodes t)) as [n|]; [|discriminate].
  destruct (children n) as [cs|]; [|discriminate].
  intros Hrun. apply price_loop_Ok in Hrun; [lia|].
  intros x ax cx Hx. now apply (IH x ax cx).
Qed.

(** When [calculate_price_for_category] returns, the count is not
    negative, and it is zero exactly when the walk comes across no offer:
    this is when the statistics entry of a category has no price. *)
Theorem calculate_price_count fuel t i a c :
  calculate_price_for_category fuel t i = Ok (a, c) ->
  0 <= c
  /\ (c = 0 <->
      forall j nj, below t i j -> Dict.get j (nodes t) = Some nj ->
                   type (info nj) <> OFFER).
Proof.
  revert i a c. induction fuel as [|fuel IH]; intros i a c; simpl; [discriminate|].
  destruct (Dict.get i (nodes t)) as [n|] eqn:Hi; [|discriminate].
  destruct (children n) as [cs|] eqn:Hcs; [|discriminate].
  intros Hrun. apply price_loop_Ok in Hrun.
  2:{ intros x ax cx Hx. now apply (IH x ax cx). }
  destruct Hrun as [Hle [_ [Hcat Hiff]]].
  split; [lia|]. rewrite Hiff. split.
  - intros [Ho Hz] j nj Hb Hj.
    inversion Hb as [i0 n0 cs0 j0 Hi0 Hcs0 Hin|
                     i0 n0 cs0 x cn j0 Hi0 Hcs0 Hin Hx Hty Hbx]; subst.
    + rewrite Hi in Hi0. inversion Hi0. subst n0.
      rewrite Hcs in Hcs0. inversion Hcs0. subst cs0. eauto.
    + rewrite Hi in Hi0. inversion Hi0. subst n0.
      rewrite Hcs in Hcs0. inversion Hcs0. subst cs0.
      destruct (Hcat x cn Hin Hx Hty) as [ax [cx Hr]].
      assert (cx = 0) by (eapply Hz; eauto). subst cx.
      destruct (IH _ _ _ Hr) as [_ Hx0].
      apply (proj1 Hx0 eq_refl j nj); auto.
  - intros Hno. split.
    + intros x cn Hin Hx. apply (Hno x cn); auto. eapply below_child; eauto.
    + intros x cn ax cx Hin Hx Hty Hr.
      destruct (IH _ _ _ Hr) as [_ Hx0]. apply Hx0.
      intros j nj Hb Hj. apply (Hno j nj); auto. eapply below_deeper; eauto.
Qed.

Lemma calculate_price_count_witness :
  0 <= 0
  /\ (0 = 0 <->
      forall j nj, below empty_category 10%N j ->
                   Dict.get j (nodes empty_category) = Some nj ->
                   type (info nj) <> OFFER).
Proof.
  exact (calculate_price_count 2 empty_category 10%N 0 0 eq_refl).
Defined.

Lemma price_loop_flat rec ns cs a0 c0 :
  (forall c, In c cs ->
     exists cn p, Dict.get c ns = Some cn /\ type (info cn) = OFFER
                  /\ price (info cn) = Some p) ->
  price_loop rec ns cs a0 c0
  = Ok (a0 + total_price ns cs, c0 + Z.of_nat (List.length cs)).
Proof.
  revert a0 c0. induction cs as [|c cs IH]; intros a0 c0 Hall.
  - simpl. unfold total_price. simpl. now rewrite !Z.add_0_r.
  - destruct (Hall c) as [cn [p [Hc [Hty Hp]]]]; [now left|].
    cbn [price_loop]. rewrite Hc, Hty. simpl. rewrite Hp.
    rewrite IH by (intros y Hy; apply Hall; now right).
    unfold total_price. cbn [map fold_right List.length].
    unfold offer_price at 2. rewrite Hc, Hp. f_equal. f_equal; lia.
Qed.

(** For a category all of whose children are priced offers of the tree,
    [calculate_price_for_category] returns (with any fuel but none) the sum
    of the children's prices and the number of children. *)
Theorem calculate_price_flat fuel t i n cs :
  Dict.get i (nodes t) = Some n ->
  children n = Some cs ->
  (forall c, In c cs ->
     exists cn p, Dict.get c (nodes t) = Some cn /\ type (info cn) = OFFER
                  /\ price (info cn) = Some p) ->
  calculate_price_for_category (S fuel) t i
  = Ok (total_price (nodes t) cs, Z.of_nat (List.length cs)).
Proof.
  intros Hi Hcs Hall. simpl. rewrite Hi, Hcs.
  now rewrite price_loop_flat.
Qed.

Lemma calculate_price_flat_witness :
  calculate_price_for_category 1 two_offers 10%N = Ok (301, 2).
Proof.
  apply (calculate_price_flat 0 two_offers 10%N
           {| info := App.item_dict (category_item 10%N None None) 0;
              children := Some [1%N; 2%N] |} [1%N; 2%N] eq_refl eq_refl).
  intros c [<-|[<-|[]]]; eexists; eexists; repeat split; reflexivity.
Defined.

(** A category that lists a child which is not in the tree cannot be
    aggregated: neither walk returns, no view of the category is produced,
    and its statistics raise. The tree gets into this state when an offer
    moves to another parent and is then deleted. *)
Theorem aggregation_needs_children fuel t i n cs c :
  Dict.get i (nodes t) = Some n ->
  id (info n) = i ->
  children n = Some cs ->
  In c cs ->
  Dict.get c (nodes t) = None ->
  (forall r, calculate_price_for_category fuel t i <> Ok r)
  /\ (forall d, calculate_date_for_category fuel t i <> Ok d)
  /\ (forall v, get_nodes fuel t n <> Ok v)
  /\ (type (info n) = CATEGORY ->
      forall s e items, snd (get_statistic_by_id fuel i s e t) <> Ok items).
Proof.
  intros Hi Hid Hcs Hin Hc.
  assert (Hp : forall f r, calculate_price_for_category f t i <> Ok r).
  { intros [|f] [a k]; simpl; [discriminate|]. rewrite Hi, Hcs. intros Hrun.
    apply price_loop_Ok in Hrun.
    - destruct Hrun as [_ [Hall _]]. destruct (Hall c Hin). congruence.
    - intros x ax cx Hx. now apply (calculate_count_nonneg f t x ax cx). }
  assert (Hd : forall f d, calculate_date_for_category f t i <> Ok d).
  { intros [|f] d; simpl; [discriminate|]. rewrite Hi, Hcs. intros Hrun.
    apply date_loop_Ok in Hrun. destruct Hrun as [_ [Hall _]].
    destruct (Hall c Hin). congruence. }
  split; [apply Hp|]. split; [apply Hd|]. split.
  - intros v. destruct fuel as [|f]; simpl; [discriminate|].
    rewrite Hcs, Hid.
    destruct (calculate_price_for_category f t i) as [[a k]|e] eqn:E;
      [|discriminate].
    exfalso. exact (Hp _ _ E).
  - intros Hty s e items. unfold get_statistic_by_id. rewrite Hi, Hty. simpl.
    destruct (calculate_date_for_category fuel t i) as [d|ex] eqn:E;
      [|discriminate].
    exfalso. exact (Hd _ _ E).
Qed.

Lemma aggregation_needs_children_witness :
  Dict.get 1%N (nodes moved_and_deleted) = None
  /\ calculate_price_for_category 5 moved_and_deleted 10%N <> Ok (0, 0).
Proof.
  split; [reflexivity|].
  exact (proj1 (aggregation_needs_children 5 moved_and_deleted 10%N
                  {| info := App.item_dict (category_item 10%N None None) 0;
                     children := Some [1%N] |} [1%N] 1%N
                  eq_refl eq_refl eq_refl (or_introl eq_refl) eq_refl) (0, 0)).
Defined.

(** ** The shape of a view *)

Lemma insert_id_perm x l : Permutation (x :: l) (insert_id x l).
Proof.
  induction l as [|y l IH]; simpl; auto.
  destruct (N.leb x y); auto.
  rewrite perm_swap. now constructor.
Qed.

Lemma sorted_perm l : Permutation l (sorted l).
Proof.
  induction l as [|x l IH]; simpl; auto.
  rewrite <- insert_id_perm. now constructor.
Qed.

Lemma insert_id_sorted x l :
  StronglySorted N.le l -> StronglySorted N.le (insert_id x l).
Proof.
  induction 1 as [|y l Hs IH Hall]; simpl.
  - repeat constructor.
  - destruct (N.leb x y) eqn:E.
    + apply N.leb_le in E. constructor.
      * now constructor.
      * constructor; auto.
        eapply Forall_impl; [|exact Hall]. intros; lia.
    + apply N.leb_gt in E. constructor; auto.
      eapply Permutation_Forall; [apply insert_id_perm|].
      constructor; auto. lia.
Qed.

Lemma sorted_sorted l : StronglySorted N.le (sorted l).
Proof.
  induction l as [|x l IH]; simpl; [constructor | now apply insert_id_sorted].
Qed.

Lemma map_result_Ok {A B} (f : A -> result B) l ys :
  map_result f l = Ok ys -> Forall2 (fun x y => f x = Ok y) l ys.
Proof.
  revert ys. induction l as [|x l IH]; intros ys; simpl.
  - intros H. inversion H. constructor.
  - destruct (f x) as [y|e] eqn:Hx; [|discriminate].
    destruct (map_result f l) as [ys'|e]; [|discriminate].
    intros H. inversion H. subst. constructor; auto.
Qed.

Lemma get_nodes_id fuel t n v : get_nodes fuel t n = Ok v -> v_id v = id (info n).
Proof.
  destruct fuel as [|fuel]; simpl; [discriminate|].
  destruct (children n) as [cs|].
  - destruct (calculate_price_for_category fuel t (id (info n))) as [[a c]|e];
      [|discriminate].
    destruct (map_result _ (sorted cs)) as [views|e]; [|discriminate].
    destruct (c =? 0); [discriminate|].
    destruct (calculate_date_for_category fuel t (id (info n))) as [d|e];
      [|discriminate].
    intros H. inversion H. reflexivity.
  - intros H. inversion H. reflexivity.
Qed.

(** The view of a node without children list (an offer) shows the stored
    price and date and no children. The view of a node with a children list
    shows one child view per child, in ascending order of the children's
    identifiers. *)
Theorem get_nodes_shape fuel t node v :
  (forall c cn, Dict.get c (nodes t) = Some cn -> id (info cn) = c) ->
  get_nodes fuel t node = Ok v ->
  v_id v = id (info node)
  /\ match children node with
     | None =>
         v_children v = None
         /\ v_price v = price (info node)
         /\ v_date v = convert_date (date (info node))
     | Some cs =>
         exists views,
           v_children v = Some views
           /\ map v_id views = sorted cs
           /\ Permutation cs (sorted cs)
           /\ StronglySorted N.le (sorted cs)
     end.
Proof.
  intros Hids Hrun. split; [eapply get_nodes_id; eauto|].
  destruct fuel as [|fuel]; simpl in Hrun; [discriminate|].
  destruct (children node) as [cs|].
  - destruct (calculate_price_for_category fuel t (id (info node))) as [[a c]|e];
      [|discriminate].
    destruct (map_result _ (sorted cs)) as [views|e] eqn:Hviews; [|discriminate].
    destruct (c =? 0); [discriminate|].
    destruct (calculate_date_for_category fuel t (id (info node))) as [d|e];
      [|discriminate].
    inversion Hrun. subst v. exists views. simpl.
    split; auto. split; [|split; [apply sorted_perm | apply sorted_sorted]].
    apply map_result_Ok in Hviews.
    induction Hviews as [|x y l ys Hxy _ IH]; simpl; auto.
    f_equal; auto.
    destruct (Dict.get x (nodes t)) as [cn|] eqn:Hx; [|discriminate].
    apply get_nodes_id in Hxy. rewrite Hxy. now apply Hids.
  - inversion Hrun. subst v. simpl. auto.
Qed.

Lemma get_nodes_shape_witness :
  exists v views,
    App.get_nodes_by_id 5 10%N
      (imported [category_item 10%N None None; offer_item 7%N (Some 10%N) (Some 1);
                 offer_item 3%N (Some 10%N) (Some 2)] 0 init) = Ok v
    /\ v_children v = Some views
    /\ map v_id views = [3%N; 7%N].
Proof.
  set (t := imported [category_item 10%N None None; offer_item 7%N (Some 10%N) (Some 1);
                      offer_item 3%N (Some 10%N) (Some 2)] 0 init).
  set (node := {| info := App.item_dict (category_item 10%N None None) 0;
                  children := Some [7%N; 3%N] |}).
  assert (Hrun : exists v, get_nodes 5 t node = Ok v)
    by (eexists; vm_compute; reflexivity).
  destruct Hrun as [v Hrun].
  assert (Hids : forall c cn, Dict.get c (nodes t) = Some cn -> id (info cn) = c).
  { apply (wf_ids t). apply wf_load_items, init_wf. }
  destruct (get_nodes_shape 5 t node v Hids Hrun) as [_ [views [Hv [Hm _]]]].
  exists v, views. split; [exact Hrun|]. split; [exact Hv|]. exact Hm.
Defined.

(** ** What the queries do to the state *)

Lemma sort_desc_fixed l : StronglySorted desc l -> sort_desc l = l.
Proof.
  induction 1 as [|x l Hs IH Hall]; simpl; auto.
  rewrite IH. destruct l as [|y l]; simpl; auto.
  inversion Hall as [|? ? Hxy _]. subst. unfold desc in Hxy.
  apply Z.leb_le in Hxy. now rewrite Hxy.
Qed.

Lemma sort_desc_idem l : sort_desc (sort_desc l) = sort_desc l.
Proof. apply sort_desc_fixed, sort_desc_sorted. Qed.

Lemma reorder_perm l l' : reorder l l' -> Permutation l l'.
Proof.
  induction 1; auto.
  - apply perm_swap.
  - etransitivity; eauto.
Qed.

Lemma reorder_insert_desc x l : reorder (x :: l) (insert_desc x l).
Proof.
  induction l as [|y l IH]; simpl; [constructor|].
  destruct (Z.leb_spec (fst y) (fst x)) as [Hle|Hlt]; [constructor|].
  eapply reorder_trans; [apply reorder_swap; lia|]. now apply reorder_skip.
Qed.

Lemma reorder_sort_desc l : reorder l (sort_desc l).
Proof.
  induction l as [|x l IH]; simpl; [constructor|].
  eapply reorder_trans; [apply reorder_skip, IH | apply reorder_insert_desc].
Qed.

Lemma reorder_insert_asc x l : reorder (x :: l) (insert_asc x l).
Proof.
  induction l as [|y l IH]; simpl; [constructor|].
  destruct (Z.leb_spec (fst x) (fst y)) as [Hle|Hlt]; [constructor|].
  eapply reorder_trans; [apply reorder_swap; lia|]. now apply reorder_skip.
Qed.

Lemma reorder_sort_asc l : reorder l (sort_asc l).
Proof.
  induction l as [|x l IH]; simpl; [constructor|].
  eapply reorder_trans; [apply reorder_skip, IH | apply reorder_insert_asc].
Qed.

Lemma insert_asc_comm x y l :
  fst x <> fst y ->
  insert_asc x (insert_asc y l) = insert_asc y (insert_asc x l).
Proof.
  intros Hne. induction l as [|z l IH]; simpl.
  - destruct (Z.leb_spec (fst x) (fst y)), (Z.leb_spec (fst y) (fst x));
      auto; lia.
  - destruct (Z.leb_spec (fst y) (fst z)), (Z.leb_spec (fst x) (fst z)); simpl;
      repeat match goal with
             | |- context [?a <=? ?b] => destruct (Z.leb_spec a b)
             end; try lia; try reflexivity.
    now rewrite IH.
Qed.

Lemma insert_desc_comm x y l :
  fst x <> fst y ->
  insert_desc x (insert_desc y l) = insert_desc y (insert_desc x l).
Proof.
  intros Hne. induction l as [|z l IH]; simpl.
  - destruct (Z.leb_spec (fst x) (fst y)), (Z.leb_spec (fst y) (fst x));
      auto; lia.
  - destruct (Z.leb_spec (fst z) (fst y)), (Z.leb_spec (fst z) (fst x)); simpl;
      repeat match goal with
             | |- context [?a <=? ?b] => destruct (Z.leb_spec a b)
             end; try lia; try reflexivity.
    now rewrite IH.
Qed.

(** Both sorts are stable, so they do not see a reordering. *)
Lemma reorder_sorts l l' :
  reorder l l' -> sort_asc l' = sort_asc l /\ sort_desc l' = sort_desc l.
Proof.
  induction 1 as [l|x l l' _ [IHa IHd]|x y l Hne|l1 l2 l3 _ [Ha1 Hd1] _ [Ha2 Hd2]];
    simpl; auto.
  - now rewrite IHa, IHd.
  - split; [apply insert_asc_comm | apply insert_desc_comm]; auto.
  - split; congruence.
Qed.

Lemma same_entries_refl (l : dict (list observation)) : Forall2 same_entry l l.
Proof. induction l; constructor; auto. split; auto. constructor. Qed.

Lemma same_catalogue_refl t : same_catalogue t t.
Proof. split; auto using same_entries_refl. Qed.

Lemma same_catalogue_trans t1 t2 t3 :
  same_catalogue t1 t2 -> same_catalogue t2 t3 -> same_catalogue t1 t3.
Proof.
  intros [Hn1 Hl1] [Hn2 Hl2]. split; [congruence|].
  revert Hl2. generalize (price_by_id t3).
  induction Hl1 as [|e1 e2 l1 l2 [Hk Hr] _ IH]; intros l3 Hl2;
    inversion Hl2 as [|? e3 ? l3' [Hk' Hr'] Hrest]; subst; constructor; auto.
  split; [congruence | eapply reorder_trans; eauto].
Qed.

Lemma sales_loop_same d ns l items :
  Forall2 same_entry l (fst (sales_loop d ns l items)).
Proof.
  revert items. induction l as [|[i h] l IH]; intros items; simpl.
  - constructor.
  - assert (Hs : same_entry (i, h) (i, sort_desc h))
      by (split; auto; apply reorder_sort_desc).
    destruct (first_recent d (sort_desc h)) as [[nd np]|].
    + destruct (Dict.get i ns) as [node|]; simpl.
      * specialize (IH (items ++ [sale_unit (info node) nd np])).
        destruct (sales_loop d ns l _). simpl in *. constructor; auto.
      * constructor; auto using same_entries_refl.
    + specialize (IH items). destruct (sales_loop d ns l items). simpl in *.
      constructor; auto.
Qed.

Lemma sales_loop_invariant d ns l l' items :
  Forall2 same_entry l l' ->
  snd (sales_loop d ns l' items) = snd (sales_loop d ns l items).
Proof.
  intros H. revert items. induction H as [|[i h] [i' h'] l l' [Hk Hh] _ IH];
    intros items; simpl; auto.
  simpl in Hk, Hh. subst i'.
  rewrite (proj2 (reorder_sorts _ _ Hh)).
  destruct (first_recent d (sort_desc h)) as [[nd np]|].
  - destruct (Dict.get i ns) as [node|]; simpl; auto.
    specialize (IH (items ++ [sale_unit (info node) nd np])).
    destruct (sales_loop d ns l' _), (sales_loop d ns l _). simpl in *. auto.
  - specialize (IH items).
    destruct (sales_loop d ns l' items), (sales_loop d ns l items). simpl in *. auto.
Qed.

Lemma same_entries_set (l : dict (list observation)) i h h' :
  Dict.get i l = Some h -> reorder h h' -> Forall2 same_entry l (Dict.set i h' l).
Proof.
  induction l as [|[k hk] l IH]; simpl; [discriminate|].
  destruct (N.eqb i k) eqn:E.
  - apply N.eqb_eq in E. subst k. intros Hh Hr. inversion Hh. subst hk.
    constructor; auto using same_entries_refl. split; auto.
  - intros Hh Hr. constructor; auto. split; auto. constructor.
Qed.

Lemma same_entries_get (l l' : dict (list observation)) i :
  Forall2 same_entry l l' ->
  match Dict.get i l, Dict.get i l' with
  | Some h, Some h' => reorder h h'
  | None, None => True
  | _, _ => False
  end.
Proof.
  induction 1 as [|[k h] [k' h'] l l' [Hk Hh] _ IH]; simpl; auto.
  simpl in Hk, Hh. subst k'. now destruct (N.eqb i k).
Qed.

Lemma price_loop_ext rec rec' ns cs a c :
  (forall x, rec x = rec' x) ->
  price_loop rec ns cs a c = price_loop rec' ns cs a c.
Proof.
  intros Hext. revert a c. induction cs as [|x cs IH]; intros a c; simpl; auto.
  destruct (Dict.get x ns) as [cn|]; auto.
  destruct (is_offer (type (info cn))).
  - destruct (price (info cn)); auto.
  - destruct (is_category (type (info cn))); auto.
    rewrite <- Hext. destruct (rec x) as [[ax cx]|]; auto.
Qed.

Lemma date_loop_ext rec rec' ns cs d :
  (forall x, rec x = rec' x) ->
  date_loop rec ns cs d = date_loop rec' ns cs d.
Proof.
  intros Hext. revert d. induction cs as [|x cs IH]; intros d; simpl; auto.
  destruct (Dict.get x ns) as [cn|]; auto.
  destruct (is_offer (type (info cn))).
  - destruct (date (info cn) >? d); auto.
  - destruct (is_category (type (info cn))); auto.
    rewrite <- Hext. destruct (rec x) as [nd|]; auto.
    destruct (nd >? d); auto.
Qed.

(** The aggregation walks and the views read the nodes only. *)
Lemma calculate_price_nodes fuel t t' i :
  nodes t' = nodes t ->
  calculate_price_for_category fuel t' i = calculate_price_for_category fuel t i.
Proof.
  intros Hn. revert i. induction fuel as [|fuel IH]; intros i; simpl; auto.
  rewrite Hn. destruct (Dict.get i (nodes t)) as [n|]; auto.
  destruct (children n) as [cs|]; auto. now apply price_loop_ext.
Qed.

Lemma calculate_date_nodes fuel t t' i :
  nodes t' = nodes t ->
  calculate_date_for_category fuel t' i = calculate_date_for_category fuel t i.
Proof.
  intros Hn. revert i. induction fuel as [|fuel IH]; intros i; simpl; auto.
  rewrite Hn. destruct (Dict.get i (nodes t)) as [n|]; auto.
  destruct (children n) as [cs|]; auto. now apply date_loop_ext.
Qed.

Lemma map_result_ext {A B} (f g : A -> result B) l :
  (forall x, f x = g x) -> map_result f l = map_result g l.
Proof.
  intros Hext. induction l as [|x l IH]; simpl; auto. now rewrite Hext, IH.
Qed.

Lemma get_nodes_nodes fuel t t' node :
  nodes t' = nodes t -> get_nodes fuel t' node = get_nodes fuel t node.
Proof.
  intros Hn. revert node. induction fuel as [|fuel IH]; intros node; simpl; auto.
  destruct (children node) as [cs|]; auto.
  rewrite (calculate_price_nodes fuel t t' _ Hn),
          (calculate_date_nodes fuel t t' _ Hn), Hn.
  destruct (calculate_price_for_category fuel t (id (info node))) as [[a c]|]; auto.
  erewrite map_result_ext; [reflexivity|].
  intros x. simpl. destruct (Dict.get x (nodes t)); auto.
Qed.

Lemma get_sales_same d t : same_catalogue t (fst (get_sales d t)).
Proof.
  unfold get_sales.
  pose proof (sales_loop_same d (nodes t) (price_by_id t) []) as H.
  destruct (sales_loop d (nodes t) (price_by_id t) []) as [l r].
  split; auto.
Qed.

(** The queries sort histories in place and do nothing else to the state:
    after [get_sales] or [get_statistic_by_id], whatever their outcome, the
    nodes are the same and every history holds the same observations, those
    of one timestamp in the same order. *)
Theorem queries_keep_catalogue d fuel i s e t :
  same_catalogue t (fst (get_sales d t))
  /\ same_catalogue t (fst (get_statistic_by_id fuel i s e t))
  /\ forall t', same_catalogue t t' ->
       nodes t' = nodes t
       /\ forall j, Permutation (history j t) (history j t').
Proof.
  split; [|split].
  - apply get_sales_same.
  - unfold get_statistic_by_id.
    destruct (Dict.get i (nodes t)) as [node|]; [|apply same_catalogue_refl].
    destruct (is_offer (type (info node))).
    + destruct (Dict.get i (price_by_id t)) as [h|] eqn:Hh;
        [|apply same_catalogue_refl].
      split; auto. simpl. eapply same_entries_set; eauto. apply reorder_sort_asc.
    + destruct (is_category (type (info node))); [|apply same_catalogue_refl].
      destruct (calculate_date_for_category fuel t i) as [nd|];
        [|apply same_catalogue_refl].
      destruct (calculate_price_for_category fuel t i) as [[a c]|];
        [|apply same_catalogue_refl].
      destruct (result_date s e nd); apply same_catalogue_refl.
  - intros t' [Hn Hl]. split; auto. intros j. unfold history.
    pose proof (same_entries_get _ _ j Hl) as Hj. unfold observation in *.
    destruct (Dict.get j (price_by_id t)), (Dict.get j (price_by_id t'));
      try contradiction; auto. now apply reorder_perm.
Qed.

Lemma queries_keep_catalogue_witness :
  Permutation (history 1%N two_prices)
    (history 1%N (fst (get_sales 0 two_prices))).
Proof.
  destruct (queries_keep_catalogue 0 1 1%N None None two_prices) as [H [_ H3]].
  exact (proj2 (H3 _ H) 1%N).
Defined.

(** Because both sorts are stable, the in-place sorting of one query is
    invisible to the next: on a catalogue that differs from [t] only in the
    order of stored histories, the sales, the statistics and the views are
    the ones that [t] gives. *)
Theorem queries_do_not_interfere d fuel i s e t t' :
  same_catalogue t t' ->
  snd (get_sales d t') = snd (get_sales d t)
  /\ snd (get_statistic_by_id fuel i s e t') = snd (get_statistic_by_id fuel i s e t)
  /\ (forall node, get_nodes fuel t' node = get_nodes fuel t node).
Proof.
  intros [Hn Hl]. split; [|split].
  - unfold get_sales. rewrite Hn.
    pose proof (sales_loop_invariant d (nodes t) _ _ [] Hl) as H.
    destruct (sales_loop d (nodes t) (price_by_id t') []),
             (sales_loop d (nodes t) (price_by_id t) []). exact H.
  - unfold get_statistic_by_id. rewrite Hn.
    destruct (Dict.get i (nodes t)) as [node|]; auto.
    destruct (is_offer (type (info node))).
    + pose proof (same_entries_get _ _ i Hl) as Hi. unfold observation in *.
      destruct (Dict.get i (price_by_id t)) as [h|],
               (Dict.get i (price_by_id t')) as [h'|]; try contradiction; auto.
      simpl. now rewrite (proj1 (reorder_sorts _ _ Hi)).
    + destruct (is_category (type (info node))); auto.
      rewrite (calculate_date_nodes fuel t t' i Hn),
              (calculate_price_nodes fuel t t' i Hn).
      destruct (calculate_date_for_category fuel t i) as [nd|]; auto.
      destruct (calculate_price_for_category fuel t i) as [[a c]|]; auto.
      destruct (result_date s e nd); auto.
  - intros node. now apply get_nodes_nodes.
Qed.

Lemma queries_do_not_interfere_witness :
  snd (get_statistic_by_id 1 1%N None None (fst (get_sales 0 two_prices)))
  = snd (get_statistic_by_id 1 1%N None None two_prices).
Proof.
  exact (proj1 (proj2 (queries_do_not_interfere 0 1 1%N None None two_prices
                         (fst (get_sales 0 two_prices))
                         (get_sales_same 0 two_prices)))).
Defined.

(** ** A bulk upsert that succeeds *)

(** When [load_items] succeeds, no item of the batch was an OFFER without
    price, every item is in the tree, every price that is neither absent nor
    0 is in its item's history with the batch date, and nothing that was in
    the tree or in a history before has been lost. *)
Theorem load_items_success items d t t' resp :
  App.load_items items d t = (t', Ok resp) ->
  App.code resp = 200
  /\ (forall x, In x items ->
        ~ (App.item_type x = OFFER /\ App.item_price x = None))
  /\ (forall x, In x items ->
        exists n, Dict.get (App.item_id x) (nodes t') = Some n)
  /\ (forall x p, In x items -> App.item_price x = Some p -> p <> 0 ->
        In (d, p) (history (App.item_id x) t'))
  /\ (forall j n, Dict.get j (nodes t) = Some n ->
        exists n', Dict.get j (nodes t') = Some n')
  /\ (forall j, incl (history j t) (history j t')).
Proof.
  unfold App.load_items. intros Hrun.
  destruct (App.load_items_loop items d t) as [t1 [[]|e]] eqn:Hloop;
    inversion Hrun; subst t1 resp.
  destruct (load_items_loop_Ok _ _ _ _ Hloop) as [Hv [Hn [Hl [Hin Hp]]]].
  split; auto. split.
  { intros x Hx [Hxt Hxp]. specialize (Hv x Hx). now rewrite Hxt, Hxp in Hv. }
  split; auto. split.
  { intros x p Hx Hxp Hnz. destruct (Hp x p Hx Hxp Hnz) as [h [Hh Hd]].
    unfold history. now rewrite Hh. }
  split; auto.
  intros j. unfold history.
  destruct (Dict.get j (price_by_id t)) as [h|] eqn:Hj; [|intros x []].
  destruct (Hl j h Hj) as [h' [Hh' Hi]]. now rewrite Hh'.
Qed.

Lemma load_items_success_witness :
  exists n, Dict.get 2%N (nodes two_offers) = Some n.
Proof.
  assert (Hrun : App.load_items
            [category_item 10%N None None; offer_item 1%N (Some 10%N) (Some 100);
             offer_item 2%N (Some 10%N) (Some 201)] 0 init
          = (two_offers,
             Ok {| App.code := 200;
                   App.message := "The insertion or update was successful" |}))
    by (vm_compute; reflexivity).
  destruct (load_items_success _ _ _ _ _ Hrun) as [_ [_ [Hin _]]].
  apply (Hin (offer_item 2%N (Some 10%N) (Some 201))).
  right. right. now left.
Defined.

(** ** The ledger's two primitives *)

(** [add_price] puts the observation after the history of its id and
    leaves every other history alone; [delete_price_by_id] on that id then
    removes the whole history and nothing else; on an id without history it
    raises [KeyError] and changes nothing. *)
Theorem ledger_append_discard i d p t :
  NoDup (Dict.keys (price_by_id t)) ->
  history i (add_price i d p t) = history i t ++ [(d, p)]
  /\ (forall j, j <> i ->
        Dict.get j (price_by_id (add_price i d p t)) = Dict.get j (price_by_id t))
  /\ (exists t2,
        delete_price_by_id i (add_price i d p t) = (t2, Ok tt)
        /\ nodes t2 = nodes t
        /\ Dict.get i (price_by_id t2) = None
        /\ forall j, j <> i ->
             Dict.get j (price_by_id t2) = Dict.get j (price_by_id t))
  /\ (Dict.get i (price_by_id t) = None ->
      delete_price_by_id i t = (t, Raise KeyError)).
Proof.
  intros Hnd.
  assert (Hget : Dict.get i (price_by_id (add_price i d p t))
                 = Some (history i t ++ [(d, p)])).
  { unfold add_price, history.
    destruct (Dict.get i (price_by_id t)); simpl; now rewrite get_set_same. }
  assert (Hother : forall j, j <> i ->
            Dict.get j (price_by_id (add_price i d p t)) = Dict.get j (price_by_id t)).
  { intros j Hj. unfold add_price.
    destruct (Dict.get i (price_by_id t)); simpl; now rewrite get_set_other. }
  assert (Hnd' : NoDup (Dict.keys (price_by_id (add_price i d p t)))).
  { unfold add_price.
    destruct (Dict.get i (price_by_id t)); simpl; now apply NoDup_keys_set. }
  split; [unfold history at 1; now rewrite Hget|]. split; auto. split.
  - unfold delete_price_by_id, Dict.mem. rewrite Hget.
    eexists. split; [reflexivity|]. simpl.
    split; [apply nodes_add_price|]. split.
    + now apply get_del_same.
    + intros j Hj. rewrite get_del_other; auto.
  - intros Hnone. unfold delete_price_by_id, Dict.mem. now rewrite Hnone.
Qed.

Lemma ledger_append_discard_witness :
  history 1%N (add_price 1%N 9 70 one_offer) = [(0, 100); (9, 70)].
Proof.
  assert (Hnd : NoDup (Dict.keys (price_by_id one_offer))).
  { vm_compute. repeat constructor; simpl; intuition discriminate. }
  exact (proj1 (ledger_append_discard 1%N 9 70 one_offer Hnd)).
Defined.

(** ** Well-formed trees *)

(** Every operation and every handler, whatever its outcome, keeps the
    tree well formed: keys stay unique in both dicts, every node stays
    stored under its own id, and no children list names a node twice. The
    empty tree is well formed, so every tree the program reaches is. *)
Theorem well_formed_kept t :
  well_formed t ->
  (forall node, well_formed (fst (add node t)))
  /\ (forall i, well_formed (fst (delete_node_by_id i t)))
  /\ (forall d, well_formed (fst (get_sales d t)))
  /\ (forall fuel i s e, well_formed (fst (get_statistic_by_id fuel i s e t)))
  /\ (forall items d, well_formed (fst (App.load_items items d t)))
  /\ (forall deleted i, well_formed (fst (App.delete_item_by_id deleted i t)))
  /\ (forall fuel i s e, well_formed (fst (App.get_statistic_by_id fuel i s e t))).
Proof.
  intros Hwf.
  split; [intros; now apply wf_add|].
  split; [intros; now apply wf_delete_node|].
  split; [intros; now apply wf_get_sales|].
  split; [intros; now apply wf_get_statistic|].
  split; [intros; now apply wf_load_items|].
  split; [intros; now apply wf_delete_item|].
  intros fuel i s e. unfold App.get_statistic_by_id.
  destruct (match e with Some e0 => _ | None => _ end); auto.
  destruct (negb (Dict.mem i (nodes t))); auto.
  now apply wf_get_statistic.
Qed.

Lemma well_formed_kept_witness :
  well_formed (imported [category_item 10%N None None] 0 init).
Proof.
  exact (proj1 (proj2 (proj2 (proj2 (proj2 (well_formed_kept init init_wf)))))
           [category_item 10%N None None] 0).
Defined.

(** ** Repeating an upsert *)

Lemma set_same {V} k (v : V) d : Dict.get k d = Some v -> Dict.set k v d = d.
Proof.
  induction d as [|[k' v'] d IH]; simpl; [discriminate|].
  destruct (N.eqb k k') eqn:E.
  - apply N.eqb_eq in E. intros H. inversion H. now subst.
  - intros H. now rewrite IH.
Qed.

Lemma with_nodes_same t : with_nodes t (nodes t) = t.
Proof. now destruct t. Qed.

Lemma adopt_fixed i items ch :
  (forall j n, In (j, n) items -> parent_is i n = true ->
               exists l, ch = Some l /\ In j l) ->
  adopt i items ch = Ok ch.
Proof.
  induction items as [|[j n] items IH]; intros Hall; simpl; auto.
  assert (Hrest : adopt i items ch = Ok ch)
    by (apply IH; intros j' n' Hin; apply Hall; now right).
  destruct (parent_is i n) eqn:E; auto.
  destruct (Hall j n (or_introl eq_refl) E) as [l [-> Hj]].
  apply mem_id_In in Hj. now rewrite Hj.
Qed.

Lemma link_parent_fixed i p t :
  (forall pid pn, p = Some pid -> Dict.get pid (nodes t) = Some pn ->
                  exists l, children pn = Some l /\ In i l) ->
  link_parent i p t = (t, Ok tt).
Proof.
  intros H. unfold link_parent. destruct p as [pid|]; auto.
  destruct (Dict.get pid (nodes t)) as [pn|] eqn:Hp; auto.
  destruct (H pid pn eq_refl Hp) as [l [-> Hi]].
  apply mem_id_In in Hi. now rewrite Hi.
Qed.

(** An upsert that completed can be repeated: the second one completes as
    well and changes no node of the tree (the ledger still gets the
    observation once more when the price counts). *)
Theorem add_again node t t' :
  well_formed t ->
  add node t = (t', Ok tt) ->
  exists t'',
    add node t' = (t'', Ok tt)
    /\ nodes t'' = nodes t'
    /\ price_by_id t''
       = if truthy (price node)
         then price_by_id (add_price (id node) (date node)
                             (match price node with Some p => p | None => 0 end) t')
         else price_by_id t'.
Proof.
  intros Hwf Hadd.
  assert (Hwf' : well_formed t').
  { pose proof (wf_add node t Hwf) as H. now rewrite Hadd in H. }
  destruct (add_Ok _ _ _ Hadd) as [t2 [ch [Hlink [Hother [Hself Hch]]]]].
  destruct (link_parent_Ok _ _ _ _ Hlink) as [_ [Hframe [Hnone Hpar]]].
  set (i := id node) in *.
  (* the node as the first upsert left it *)
  assert (Hn' : exists n', Dict.get i (nodes t') = Some n' /\ info n' = node
                  /\ forall l, ch = Some l ->
                       exists l', children n' = Some l' /\ incl l l').
  { destruct (parent_id node) as [p|] eqn:Hp.
    - destruct (N.eq_dec p i) as [->|Hne].
      + destruct (Hpar i _ eq_refl Hself) as [l [l' [Hc [Hg [Hi _]]]]].
        eexists. split; [exact Hg|]. split; auto.
        intros l0 E. simpl in Hc. rewrite E in Hc. inversion Hc. subst l0.
        exists l'. auto.
      + eexists. rewrite Hframe by congruence. split; [exact Hself|].
        split; auto. intros l E. exists l. simpl. auto using incl_refl.
    - eexists. rewrite Hframe by congruence. split; [exact Hself|].
      split; auto. intros l E. exists l. simpl. auto using incl_refl. }
  destruct Hn' as [n' [Hgi [Hinfo Hkids]]].
  (* every node keeps its data from the first write on *)
  assert (Hback : forall j n, Dict.get j (nodes t') = Some n ->
            exists n1,
              Dict.get j (Dict.set i {| info := node;
                                        children := kept_children node t |}
                            (nodes t)) = Some n1
              /\ info n1 = info n).
  { intros j n Hj.
    assert (H2 : exists n2, Dict.get j (nodes t2) = Some n2 /\ info n2 = info n).
    { destruct (Dict.get j (nodes t2)) as [n2|] eqn:H2.
      - exists n2. split; auto.
        destruct (parent_id node) as [p|] eqn:Hp.
        + destruct (N.eq_dec p j) as [->|Hne].
          * destruct (Hpar j n2 eq_refl H2) as [l [l' [_ [Hg _]]]].
            rewrite Hg in Hj. inversion Hj. reflexivity.
          * rewrite Hframe, H2 in Hj by congruence. now inversion Hj.
        + rewrite Hframe, H2 in Hj by congruence. now inversion Hj.
      - rewrite (Hnone j H2) in Hj. discriminate. }
    destruct H2 as [n2 [H2 Hi2]].
    destruct (N.eq_dec j i) as [->|Hne].
    - rewrite get_set_same. eexists. split; eauto.
      rewrite Hself in H2. inversion H2. subst n2. exact Hi2.
    - rewrite get_set_other by auto. exists n2. rewrite <- Hother by auto. auto. }
  (* the parent lists the node *)
  assert (Hlinked : forall s, nodes s = nodes t' ->
            link_parent i (parent_id node) s = (s, Ok tt)).
  { intros s Hs. apply link_parent_fixed. intros pid pn Hp Hg. rewrite Hs in Hg.
    destruct (Dict.get pid (nodes t2)) as [pn2|] eqn:H2.
    - destruct (Hpar pid pn2 Hp H2) as [l [l' [_ [Hg' [_ [Hi _]]]]]].
      rewrite Hg' in Hg. inversion Hg. exists l'. auto.
    - rewrite (Hnone pid H2) in Hg. discriminate. }
  assert (Hk : kept_children node t' = children n').
  { unfold kept_children. fold i. now rewrite Hgi. }
  assert (Hset : Dict.set i {| info := node; children := children n' |} (nodes t')
                 = nodes t').
  { apply set_same. rewrite Hgi. f_equal. destruct n'. simpl in *. now subst. }
  unfold add. fold i. rewrite Hk, Hset, with_nodes_same.
  destruct (truthy (price node)) eqn:Tr.
  - destruct (price node) as [p|] eqn:Hp; [|discriminate].
    exists (add_price i (date node) p t').
    rewrite Hlinked by apply nodes_add_price.
    repeat split; auto using nodes_add_price.
  - destruct (is_category (type node)) eqn:Cat.
    + destruct Hch as [[_ [Ht|Hc]]|[_ [_ Ha]]]; try congruence.
      assert (Hfix : adopt i (nodes t') (children n') = Ok (children n')).
      { apply adopt_fixed. intros j n Hin Hpj.
        apply (In_get _ _ _ (wf_nodes t' Hwf')) in Hin.
        destruct (Hback j n Hin) as [n1 [Hg1 Hi1]].
        assert (Hp1 : parent_is i n1 = true)
          by (unfold parent_is in *; now rewrite Hi1).
        apply get_In in Hg1.
        destruct (kept_children node t) as [l0|].
        - apply adopt_Some in Ha. destruct Ha as [lch [E [_ [_ Hall]]]].
          destruct (Hkids lch E) as [l' [Hl' Hincl]].
          exists l'. split; auto. apply Hincl. eapply Hall; eauto.
        - apply adopt_None in Ha. destruct Ha as [_ Hall].
          rewrite (Hall _ _ Hg1) in Hp1. discriminate. }
      rewrite Hfix, Hset, with_nodes_same.
      exists t'. rewrite Hlinked by reflexivity. auto.
    + exists t'. rewrite Hlinked by reflexivity. auto.
Qed.

Lemma add_again_witness :
  exists t'',
    add (App.item_dict (offer_item 2%N (Some 10%N) (Some 201)) 0) two_offers
    = (t'', Ok tt)
    /\ nodes t'' = nodes two_offers.
Proof.
  assert (Hwf : well_formed shelf_sample) by apply wf_load_items, init_wf.
  assert (Hadd : add (App.item_dict (offer_item 2%N (Some 10%N) (Some 201)) 0)
                   shelf_sample = (two_offers, Ok tt))
    by (vm_compute; reflexivity).
  destruct (add_again _ _ _ Hwf Hadd) as [t'' [Hrun [Hn _]]].
  exists t''. split; [exact Hrun | exact Hn].
Defined.

(** ** Views of categories *)

(** For a category whose price walk returns sum [a] and count [c]: with
    [c = 0] no view is produced, and a view that is produced shows the floor
    of [a / c]. *)
Theorem category_view_price fuel t node cs a c :
  children node = Some cs ->
  calculate_price_for_category fuel t (id (info node)) = Ok (a, c) ->
  (c = 0 -> exists e, get_nodes (S fuel) t node = Raise e)
  /\ (forall v, get_nodes (S fuel) t node = Ok v ->
        c <> 0 /\ v_price v = Some (a / c)).
Proof.
  intros Hcs Hp. split.
  - intros ->. eapply get_nodes_zero_count; eauto.
  - intros v Hv.
    destruct (get_nodes_category_price _ _ _ _ _ Hcs Hv) as [a' [c' [Hp' [Hc' Hpr]]]].
    rewrite Hp in Hp'. inversion Hp'. subst. auto.
Qed.

Lemma category_view_price_witness :
  exists v,
    get_nodes 3 two_offers
      {| info := App.item_dict (category_item 10%N None None) 0;
         children := Some [1%N; 2%N] |} = Ok v
    /\ v_price v = Some 150.
Proof.
  assert (Hrun : exists v,
            get_nodes 3 two_offers
              {| info := App.item_dict (category_item 10%N None None) 0;
                 children := Some [1%N; 2%N] |} = Ok v)
    by (eexists; vm_compute; reflexivity).
  destruct Hrun as [v Hv]. exists v. split; [exact Hv|].
  destruct (category_view_price 2 two_offers
              {| info := App.item_dict (category_item 10%N None None) 0;
                 children := Some [1%N; 2%N] |} [1%N; 2%N] 301 2
              eq_refl eq_refl) as [_ H].
  exact (proj2 (H v Hv)).
Defined.

(** One step of [get_nodes]. *)
Lemma get_nodes_S fuel t node :
  get_nodes (S fuel) t node
  = match children node with
    | Some cs =>
        match calculate_price_for_category fuel t (id (info node)) with
        | Raise e => Raise e
        | Ok (amount, count) =>
            match
              map_result
                (fun c => match Dict.get c (nodes t) with
                          | None => Raise KeyError
                          | Some cn => get_nodes fuel t cn
                          end) (sorted cs)
            with
            | Raise e => Raise e
            | Ok views =>
                if count =? 0 then Raise ZeroDivisionError
                else
                  match calculate_date_for_category fuel t (id (info node)) with
                  | Raise e => Raise e
                  | Ok d =>
                      Ok (mkView (convert_date d) (id (info node))
                            (name (info node)) (parent_id (info node))
                            (type (info node)) (Some (amount / count))
                            (Some views))
                  end
            end
        end
    | None =>
        Ok (mkView (convert_date (date (info node))) (id (info node))
              (name (info node)) (parent_id (info node)) (type (info node))
              (price (info node)) None)
    end.
Proof. reflexivity. Qed.

Lemma date_loop_flat rec ns cs d0 :
  (forall c, In c cs ->
     exists cn, Dict.get c ns = Some cn /\ type (info cn) = OFFER) ->
  exists d, date_loop rec ns cs d0 = Ok d.
Proof.
  revert d0. induction cs as [|c cs IH]; intros d0 Hall; simpl; eauto.
  destruct (Hall c) as [cn [Hc Hty]]; [now left|].
  rewrite Hc, Hty. simpl.
  destruct (date (info cn) >? d0); apply IH; intros y Hy; apply Hall; now right.
Qed.

Lemma map_result_total {A B} (f : A -> result B) l :
  (forall x, In x l -> exists y, f x = Ok y) ->
  exists ys, map_result f l = Ok ys.
Proof.
  induction l as [|x l IH]; intros Hall; simpl; eauto.
  destruct (Hall x) as [y Hy]; [now left|]. rewrite Hy.
  destruct IH as [ys Hys]; [intros z Hz; apply Hall; now right|].
  rewrite Hys. eauto.
Qed.

(** The view of a category is produced, and shows the floor of the average
    price, when the category has at least one child and all its children
    are priced offers of the tree without children list. *)
Theorem get_nodes_flat fuel t node cs :
  Dict.get (id (info node)) (nodes t) = Some node ->
  children node = Some cs ->
  cs <> [] ->
  (forall c, In c cs ->
     exists cn p, Dict.get c (nodes t) = Some cn /\ type (info cn) = OFFER
                  /\ price (info cn) = Some p /\ children cn = None) ->
  exists v,
    get_nodes (S (S fuel)) t node = Ok v
    /\ v_price v = Some (total_price (nodes t) cs / Z.of_nat (List.length cs)).
Proof.
  intros Hi Hcs Hne Hall.
  assert (Hprice : calculate_price_for_category (S fuel) t (id (info node))
                   = Ok (total_price (nodes t) cs, Z.of_nat (List.length cs))).
  { simpl. rewrite Hi, Hcs. apply price_loop_flat.
    intros c Hc. destruct (Hall c Hc) as [cn [p [H1 [H2 [H3 _]]]]]. eauto. }
  assert (Hdate : exists d, calculate_date_for_category (S fuel) t (id (info node))
                            = Ok d).
  { simpl. rewrite Hi, Hcs. apply date_loop_flat.
    intros c Hc. destruct (Hall c Hc) as [cn [p [H1 [H2 _]]]]. eauto. }
  destruct Hdate as [d Hdate].
  assert (Hviews : exists views,
            map_result
              (fun c => match Dict.get c (nodes t) with
                        | None => Raise KeyError
                        | Some cn => get_nodes (S fuel) t cn
                        end) (sorted cs) = Ok views).
  { apply map_result_total. intros c Hc.
    apply (Permutation_in _ (Permutation_sym (sorted_perm cs))) in Hc.
    destruct (Hall c Hc) as [cn [p [H1 [_ [_ H4]]]]].
    rewrite H1. simpl. rewrite H4. eauto. }
  destruct Hviews as [views Hviews].
  assert (Hlen : (Z.of_nat (List.length cs) =? 0) = false).
  { apply Z.eqb_neq. destruct cs; [congruence | simpl; lia]. }
  eexists. split.
  - rewrite get_nodes_S, Hcs, Hprice, Hviews, Hlen, Hdate. reflexivity.
  - reflexivity.
Qed.

Lemma get_nodes_flat_witness :
  exists v,
    App.get_nodes_by_id 2 10%N two_offers = Ok v /\ v_price v = Some 150.
Proof.
  destruct (get_nodes_flat 0 two_offers
              {| info := App.item_dict (category_item 10%N None None) 0;
                 children := Some [1%N; 2%N] |} [1%N; 2%N]
              eq_refl eq_refl ltac:(discriminate)) as [v [Hv Hp]].
  - intros c [<-|[<-|[]]]; eexists; eexists; repeat split; reflexivity.
  - exists v. split; [exact Hv | exact Hp].
Defined.

(** ** Queries after a deletion and after an upsert *)

Lemma delete_node_removes i t t' r :
  NoDup (Dict.keys (nodes t)) ->
  delete_node_by_id i t = (t', Ok r) ->
  Dict.get i (nodes t') = None.
Proof.
  intros Hnd. unfold delete_node_by_id.
  destruct (Dict.get i (nodes t)) as [node|] eqn:Hi.
  2:{ intros H. inversion H. now subst. }
  assert (Hdel : forall ns, NoDup (Dict.keys ns) ->
                   Dict.get i (nodes (with_nodes t (Dict.del i ns))) = None)
    by (intros ns Hns; simpl; now apply get_del_same).
  destruct (parent_id (info node)) as [p|].
  2:{ intros H. inversion H. now apply Hdel. }
  destruct (Dict.get p (nodes t)) as [pn|].
  2:{ intros H. inversion H. now apply Hdel. }
  destruct (children pn) as [l|]; [|discriminate].
  destruct (mem_id i l); [|discriminate].
  intros H. inversion H. apply Hdel. now apply NoDup_keys_set.
Qed.

(** After a deletion through the handler that succeeded, the id is gone
    from the tree: the view and (for bounds that are not reversed) the
    statistics of that id answer NotFound. The ledger is as before. *)
Theorem delete_then_not_found deleted i t t' r fuel (s e : option datetime) :
  NoDup (Dict.keys (nodes t)) ->
  App.delete_item_by_id deleted i t = (t', Ok r) ->
  Dict.get i (nodes t') = None
  /\ App.get_nodes_by_id fuel i t' = Raise NotFound
  /\ ((forall x y, s = Some x -> e = Some y -> x <= y) ->
      App.get_statistic_by_id fuel i s e t' = (t', Raise NotFound))
  /\ price_by_id t' = price_by_id t.
Proof.
  intros Hnd Hrun.
  assert (Hgone : Dict.get i (nodes t') = None /\ price_by_id t' = price_by_id t).
  { revert Hrun. unfold App.delete_item_by_id.
    destruct deleted; simpl; [|discriminate].
    destruct (Dict.get i (nodes t)) as [node|]; [|discriminate].
    pose proof (delete_node_ledger i t) as Hl.
    destruct (delete_node_by_id i t) as [t2 [ro|ex]] eqn:Hd; [|discriminate].
    pose proof (delete_node_removes i t t2 ro Hnd Hd) as Hg.
    destruct ro; intros H; inversion H; subst; auto. }
  destruct Hgone as [Hgone Hledger].
  split; auto. split.
  { unfold App.get_nodes_by_id. now rewrite Hgone. }
  split; auto.
  intros Hrange. now apply statistic_absent_id.
Qed.

Lemma delete_then_not_found_witness :
  App.get_nodes_by_id 3 1%N (fst (App.delete_item_by_id true 1%N shelf_sample))
  = Raise NotFound.
Proof.
  assert (Hnd : NoDup (Dict.keys (nodes shelf_sample))).
  { vm_compute. repeat constructor; simpl; intuition discriminate. }
  assert (Hrun : App.delete_item_by_id true 1%N shelf_sample
                 = (fst (App.delete_item_by_id true 1%N shelf_sample),
                    Ok (Some {| App.code := 200; App.message := "OK" |})))
    by (vm_compute; reflexivity).
  exact (proj1 (proj2 (delete_then_not_found true 1%N shelf_sample _ _ 3 None None
                         Hnd Hrun))).
Defined.

(** After a completed upsert of an OFFER that is new, or was stored without
    children list, the view of its id shows exactly what was written: name,
    parent, price and date, and no children. *)
Theorem upsert_then_view node t t' fuel :
  add node t = (t', Ok tt) ->
  type node = OFFER ->
  (forall old, Dict.get (id node) (nodes t) = Some old -> children old = None) ->
  App.get_nodes_by_id (S fuel) (id node) t'
  = Ok (mkView (convert_date (date node)) (id node) (name node)
          (parent_id node) OFFER (price node) None).
Proof.
  intros Hadd Hty Hold.
  assert (Hk : kept_children node t = None).
  { unfold kept_children. rewrite Hty. simpl.
    destruct (Dict.get (id node) (nodes t)) as [old|] eqn:Ho; auto. }
  destruct (add_Ok _ _ _ Hadd) as [t2 [ch [Hlink [_ [Hself Hch]]]]].
  assert (Hc : ch = None).
  { destruct Hch as [[-> _]|[_ [Hcat _]]]; auto. rewrite Hty in Hcat. discriminate. }
  subst ch.
  destruct (link_parent_Ok _ _ _ _ Hlink) as [_ [Hframe [_ Hpar]]].
  assert (Hg : Dict.get (id node) (nodes t')
               = Some {| info := node; children := None |}).
  { destruct (parent_id node) as [p|] eqn:Hp.
    - destruct (N.eq_dec p (id node)) as [->|Hne].
      + destruct (Hpar _ _ eq_refl Hself) as [l [_ [Hc _]]]. discriminate.
      + rewrite Hframe; auto. congruence.
    - rewrite Hframe; auto. discriminate. }
  unfold App.get_nodes_by_id. rewrite Hg. simpl. now rewrite Hty.
Qed.

Lemma upsert_then_view_witness :
  App.get_nodes_by_id 1 2%N
    (fst (add (App.item_dict (offer_item 2%N (Some 10%N) (Some 201)) 0)
            shelf_sample))
  = Ok (mkView (convert_date 0) 2%N "offer" (Some 10%N) OFFER (Some 201) None).
Proof.
  apply (upsert_then_view (App.item_dict (offer_item 2%N (Some 10%N) (Some 201)) 0)
           shelf_sample _ 0).
  - vm_compute. reflexivity.
  - reflexivity.
  - intros old Ho. vm_compute in Ho. discriminate.
Defined.

Lemma filter_Permutation {A} (f : A -> bool) l l' :
  Permutation l l' -> Permutation (filter f l) (filter f l').
Proof.
  induction 1 as [|x l l' _ IH|x y l|l1 l2 l3 _ IH1 _ IH2]; simpl; auto.
  - destruct (f x); auto.
  - destruct (f x), (f y); auto. apply perm_swap.
  - etransitivity; eauto.
Qed.

(** After an upsert of an OFFER with a price other than 0, whatever the
    outcome of the upsert, the statistics of its id return one entry per
    observation of the old history and of the new one that lies in the
    interval; the new observation is among them when its date does. *)
Theorem upsert_then_statistics node t p fuel s e :
  type node = OFFER ->
  price node = Some p ->
  p <> 0 ->
  exists items,
    snd (get_statistic_by_id fuel (id node) s e (fst (add node t))) = Ok items
    /\ Permutation (map shown items)
         (map as_shown
            (filter (observed_in s e) (history (id node) t ++ [(date node, p)])))
    /\ (in_interval s e (date node) -> In (date node, Some p) (map shown items)).
Proof.
  intros Hty Hp Hnz.
  destruct (add_writes node t) as [n [Hn Hinfo]].
  assert (Hl : Dict.get (id node) (price_by_id (fst (add node t)))
               = Some (history (id node) t ++ [(date node, p)])).
  { rewrite add_ledger, Hp. apply Z.eqb_neq in Hnz. rewrite Hnz.
    unfold add_price, history.
    destruct (Dict.get (id node) (price_by_id t)); simpl; now rewrite get_set_same. }
  set (h := history (id node) t ++ [(date node, p)]) in *.
  exists (offer_items (id node) node s e (sort_asc h)).
  assert (Hperm : Permutation
            (map shown (offer_items (id node) node s e (sort_asc h)))
            (map as_shown (filter (observed_in s e) h))).
  { rewrite offer_items_filter, map_map. simpl.
    apply Permutation_map, filter_Permutation, Permutation_sym, sort_asc_perm. }
  split.
  { unfold get_statistic_by_id. rewrite Hn, Hinfo, Hty. simpl.
    unfold observation in *. rewrite Hl. reflexivity. }
  split; auto.
  intros Hint. apply (Permutation_in _ (Permutation_sym Hperm)).
  change (date node, Some p) with (as_shown (date node, p)).
  apply in_map, filter_In. split.
  - unfold h. apply in_or_app. right. now left.
  - unfold observed_in. simpl. now apply in_intervalb_spec.
Qed.

Lemma upsert_then_statistics_witness :
  exists items,
    snd (get_statistic_by_id 1 1%N None None
           (fst (add (App.item_dict (offer_item 1%N None (Some 70)) 9) one_offer)))
    = Ok items
    /\ In (9, Some 70) (map shown items).
Proof.
  destruct (upsert_then_statistics
              (App.item_dict (offer_item 1%N None (Some 70)) 9) one_offer 70 1
              None None eq_refl eq_refl ltac:(discriminate))
    as [items [Hrun [_ Hin]]].
  exists items. split; [exact Hrun|].
  apply Hin. split; intros x Hx; discriminate Hx.
Defined.

(** ** Sales and deletion on the code *)

(** C4, on the code. Offers [1] and [2] were both observed at instant 0 and
    the sales query at that instant lists both. Offer [1] is then deleted
    through the handler, which succeeds. Offer [2] is still in the tree with
    its observation within the window, yet the sales query now returns no
    list at all: it raises a lookup error on the history that the deletion
    left behind. *)
Theorem get_sales_raises_after_delete :
  (exists items, snd (App.get_sales 0 two_lone_offers) = Ok items
                 /\ map sale_id items = [1%N; 2%N]
                 /\ map sale_price items = [100; 7])
  /\ snd (App.delete_item_by_id true 1%N two_lone_offers)
     = Ok (Some {| App.code := 200; App.message := "OK" |})
  /\ Dict.mem 2%N (nodes (fst (App.delete_item_by_id true 1%N two_lone_offers)))
     = true
  /\ history 2%N (fst (App.delete_item_by_id true 1%N two_lone_offers)) = [(0, 7)]
  /\ days 0 0 <= 1
  /\ snd (App.get_sales 0 (fst (App.delete_item_by_id true 1%N two_lone_offers)))
     = Raise KeyError.
Proof.
  split; [eexists; vm_compute; repeat split; reflexivity|].
  vm_compute. repeat split; try reflexivity. discriminate.
Qed.

(** C6, on the code. Offer [1] moved from category [10] to category [20]:
    both list it, and the view of [10] is produced. Deleting [1] through the
    handler succeeds and leaves the entry of [10] as it was, still listing
    [1]; from then on neither the view nor the statistics of [10] can be
    asked for. And a node whose parent is in the tree without listing it is
    not deleted at all: the deletion raises and the node stays. *)
Theorem delete_breaks_other_nodes :
  (exists v, App.get_nodes_by_id 5 10%N moved_offer = Ok v)
  /\ snd (App.delete_item_by_id true 1%N moved_offer)
     = Ok (Some {| App.code := 200; App.message := "OK" |})
  /\ fst (App.delete_item_by_id true 1%N moved_offer) = moved_and_deleted
  /\ Dict.get 10%N (nodes moved_and_deleted) = Dict.get 10%N (nodes moved_offer)
  /\ (exists n, Dict.get 10%N (nodes moved_and_deleted) = Some n
                /\ children n = Some [1%N])
  /\ App.get_nodes_by_id 5 10%N moved_and_deleted = Raise KeyError
  /\ snd (App.get_statistic_by_id 5 10%N None None moved_and_deleted)
     = Raise KeyError
  /\ delete_node_by_id 1%N offer_under_offer
     = (offer_under_offer, Raise AttributeError)
  /\ delete_node_by_id 1%N priced_category = (priced_category, Raise ValueError).
Proof.
  split; [eexists; vm_compute; reflexivity|].
  do 3 (split; [vm_compute; reflexivity|]).
  split; [eexists; split; vm_compute; reflexivity|].
  repeat split; vm_compute; reflexivity.
Qed.
